(** * Cursor-paginated browsing of the "sentencias" collection

    A shallow embedding of the two versions of the [Table] component
    (src/components/Table.tsx and the second, unnamed listing) and of
    [FirestoreService.getPaged], followed by the properties of the
    paginated query engine.

    Strings are byte strings: a JavaScript string is represented by its
    UTF-8 encoding, which is also the order in which the document store
    compares string fields. *)

From Stdlib Require Import ZArith Ascii String Lia.
From stdpp Require Import base option list strings pretty gmap.

Local Open Scope string_scope.
Local Open Scope list_scope.
Local Open Scope Z_scope.

(** ** The part of firebase/firestore the code relies on *)

Module Firestore.

(** A field value of a stored document. *)
Inductive Value :=
| VString (s : string)
| VNumber (z : Z).

(** The operand of a [where] predicate, as the caller writes it:
    a string, or [Number(s)] for a string [s] (kept symbolic). *)
Inductive Operand :=
| OString (s : string)
| ONumberOf (s : string).

Inductive WhereOp := OpEq | OpGe | OpLe.

Inductive Direction := asc | desc.

(** [DocumentSnapshot<DocumentData>]: the document id and its fields. *)
Record DocumentSnapshot := {
  snap_id : string;
  snap_data : gmap string Value
}.

(** [QueryConstraint], as built by [where], [orderBy], [limit] and
    [startAfter]. *)
Inductive QueryConstraint :=
| Where (field : string) (op : WhereOp) (v : Operand)
| OrderBy (field : string) (dir : Direction)
| Limit (n : Z)
| StartAfter (snap : DocumentSnapshot).

(** [query(collection(db, name), ...constraints)]. *)
Record Query := {
  q_collection : string;
  q_constraints : list QueryConstraint
}.

(** What a [catch] clause can receive. *)
Inductive Thrown :=
| ErrorInstance (message : string)
| NotAnError.

(** [getDocs]: the store either throws or answers with the documents of
    the snapshot, in order. *)
Definition Store := Query -> Thrown + list DocumentSnapshot.

(** Requests go through a writer of the queries sent so far. *)
Definition Net (A : Type) : Type := list Query -> (Thrown + A) * list Query.

Definition getDocs (store : Store) (q : Query) : Net (list DocumentSnapshot) :=
  fun sent => (store q, sent ++ [q]).

(** Comparison of string fields (UTF-8 byte order). *)
Definition string_op_holds (op : WhereOp) (a b : string) : bool :=
  match op with
  | OpEq => String.eqb a b
  | OpGe => String.leb b a
  | OpLe => String.leb a b
  end.

Definition order_by_fields (q : Query) : list string :=
  omap (fun c => match c with OrderBy f _ => Some f | _ => None end)
       (q_constraints q).

Definition start_positions (q : Query) : list DocumentSnapshot :=
  omap (fun c => match c with StartAfter s => Some s | _ => None end)
       (q_constraints q).

Definition is_where (c : QueryConstraint) : bool :=
  match c with Where _ _ _ => true | _ => false end.

Definition where_field (c : QueryConstraint) : option string :=
  match c with Where f _ _ => Some f | _ => None end.

Definition onlyWhere (cs : list QueryConstraint) : Prop :=
  Forall (fun c => is_where c = true) cs.

(** The predicates of a list that constrain the field [f]. *)
Definition predicatesOn (f : string) (cs : list QueryConstraint)
    : list QueryConstraint :=
  List.filter (fun c => bool_decide (where_field c = Some f)) cs.

(** Whether the stored string [x] passes a string predicate. *)
Definition holds_on (c : QueryConstraint) (x : string) : bool :=
  match c with
  | Where _ op (OString v) => string_op_holds op x v
  | _ => false
  end.

End Firestore.

Import Firestore.

(** JavaScript truthiness of a string: non-empty. *)
Definition truthy (s : string) : bool :=
  match s with EmptyString => false | String _ _ => true end.

(** ** src/firebase/firestore: [FirestoreService.getPaged] *)

Module FirestoreService.

(** [T & { id: string }], built as [{ id: d.id, ...d.data() }]: a field
    [id] of the document, if any, overrides the document id. *)
Definition Row := gmap string Value.

Definition toRow (d : DocumentSnapshot) : Row :=
  snap_data d ∪ {[ "id" := VString (snap_id d) ]}.

Record Options := {
  orderByField : option string;
  order : option Direction;
  startAfterSnapshot : option DocumentSnapshot;
  constraints : option (list QueryConstraint)
}.

Record Page := {
  data : list Row;
  nextCursor : option DocumentSnapshot
}.

Definition buildQuery (collectionName : string) (pageSize : Z)
    (options : option Options) : Query :=
  let c0 : list QueryConstraint := [] in
  let c1 :=
    match options ≫= constraints with
    | Some cs => if (length cs =? 0)%nat then c0 else c0 ++ cs
    | None => c0
    end in
  let c2 :=
    match options ≫= orderByField with
    | Some f =>
        if truthy f
        then c1 ++ [OrderBy f (default asc (options ≫= order))]
        else c1
    | None => c1
    end in
  let c3 := c2 ++ [Limit pageSize] in
  let c4 :=
    match options ≫= startAfterSnapshot with
    | Some s => c3 ++ [StartAfter s]
    | None => c3
    end in
  {| q_collection := collectionName; q_constraints := c4 |}.

Definition pageOf (pageSize : Z) (docs : list DocumentSnapshot) : Page :=
  let data := map toRow docs in
  let lastDoc :=
    if (length docs =? 0)%nat then None
    else docs !! (length docs - 1)%nat in
  let nextCursor :=
    match lastDoc with
    | Some d => if Z.of_nat (length data) =? pageSize then Some d else None
    | None => None
    end in
  {| data := data; nextCursor := nextCursor |}.

Definition getPaged (store : Store) (collectionName : string)
    (pageSize : Z) (options : option Options) : Net Page :=
  fun sent =>
    match getDocs store (buildQuery collectionName pageSize options) sent with
    | (inl e, sent') => (inl e, sent')
    | (inr docs, sent') => (inr (pageOf pageSize docs), sent')
    end.

End FirestoreService.

(** ** src/components/Table.tsx *)

Module Table.

(** [keyof Decision | "createdAt"]. *)
Inductive Field :=
| FAnio | FDia | FExpediente | FIdentificador | FMes | FSala | FSalaNum
| FUrl | FCreatedAt.

Definition field_name (f : Field) : string :=
  match f with
  | FAnio => "año"
  | FDia => "día"
  | FExpediente => "expediente"
  | FIdentificador => "identificador"
  | FMes => "mes"
  | FSala => "sala"
  | FSalaNum => "sala_num"
  | FUrl => "url"
  | FCreatedAt => "createdAt"
  end.

Definition COLLECTION : string := "sentencias".
Definition PAGE_SIZE : Z := 50.

(** ["year" | "sala" | "exp"]; [null] is [None]. *)
Inductive FilterType := TYear | TSala | TExp.

#[global] Instance Field_eq_dec : EqDecision Field.
Proof. solve_decision. Defined.
#[global] Instance FilterType_eq_dec : EqDecision FilterType.
Proof. solve_decision. Defined.
#[global] Instance Direction_eq_dec : EqDecision Direction.
Proof. solve_decision. Defined.

(** The [useState] cells of the component. *)
Record State := {
  rows : list FirestoreService.Row;
  orderByField : Field;
  order : Direction;
  activeFilterType : option FilterType;
  year : string;
  salaNum : string;
  expPrefix : string;
  cursorStack : list DocumentSnapshot;
  nextCursor : option DocumentSnapshot;
  loading : bool;
  err : option string
}.

Definition initial : State :=
  {| rows := []; orderByField := FSalaNum; order := desc;
     activeFilterType := None; year := ""; salaNum := ""; expPrefix := "";
     cursorStack := []; nextCursor := None; loading := false; err := None |}.

Definition setRows v (s : State) : State :=
  {| rows := v; orderByField := orderByField s; order := order s;
     activeFilterType := activeFilterType s; year := year s;
     salaNum := salaNum s; expPrefix := expPrefix s;
     cursorStack := cursorStack s; nextCursor := nextCursor s;
     loading := loading s; err := err s |}.
Definition setOrder v (s : State) : State :=
  {| rows := rows s; orderByField := orderByField s; order := v;
     activeFilterType := activeFilterType s; year := year s;
     salaNum := salaNum s; expPrefix := expPrefix s;
     cursorStack := cursorStack s; nextCursor := nextCursor s;
     loading := loading s; err := err s |}.
Definition setActiveFilterType v (s : State) : State :=
  {| rows := rows s; orderByField := orderByField s; order := order s;
     activeFilterType := v; year := year s;
     salaNum := salaNum s; expPrefix := expPrefix s;
     cursorStack := cursorStack s; nextCursor := nextCursor s;
     loading := loading s; err := err s |}.
Definition setYear v (s : State) : State :=
  {| rows := rows s; orderByField := orderByField s; order := order s;
     activeFilterType := activeFilterType s; year := v;
     salaNum := salaNum s; expPrefix := expPrefix s;
     cursorStack := cursorStack s; nextCursor := nextCursor s;
     loading := loading s; err := err s |}.
Definition setSalaNum v (s : State) : State :=
  {| rows := rows s; orderByField := orderByField s; order := order s;
     activeFilterType := activeFilterType s; year := year s;
     salaNum := v; expPrefix := expPrefix s;
     cursorStack := cursorStack s; nextCursor := nextCursor s;
     loading := loading s; err := err s |}.
Definition setExpPrefix v (s : State) : State :=
  {| rows := rows s; orderByField := orderByField s; order := order s;
     activeFilterType := activeFilterType s; year := year s;
     salaNum := salaNum s; expPrefix := v;
     cursorStack := cursorStack s; nextCursor := nextCursor s;
     loading := loading s; err := err s |}.
Definition setCursorStack v (s : State) : State :=
  {| rows := rows s; orderByField := orderByField s; order := order s;
     activeFilterType := activeFilterType s; year := year s;
     salaNum := salaNum s; expPrefix := expPrefix s;
     cursorStack := v; nextCursor := nextCursor s;
     loading := loading s; err := err s |}.
Definition setNextCursor v (s : State) : State :=
  {| rows := rows s; orderByField := orderByField s; order := order s;
     activeFilterType := activeFilterType s; year := year s;
     salaNum := salaNum s; expPrefix := expPrefix s;
     cursorStack := cursorStack s; nextCursor := v;
     loading := loading s; err := err s |}.
Definition setLoading v (s : State) : State :=
  {| rows := rows s; orderByField := orderByField s; order := order s;
     activeFilterType := activeFilterType s; year := year s;
     salaNum := salaNum s; expPrefix := expPrefix s;
     cursorStack := cursorStack s; nextCursor := nextCursor s;
     loading := v; err := err s |}.
Definition setErr v (s : State) : State :=
  {| rows := rows s; orderByField := orderByField s; order := order s;
     activeFilterType := activeFilterType s; year := year s;
     salaNum := salaNum s; expPrefix := expPrefix s;
     cursorStack := cursorStack s; nextCursor := nextCursor s;
     loading := loading s; err := v |}.

(** The component together with the queries it has sent. *)
Record World := { ui : State; sent : list Query }.

Definition filter_is (t : FilterType) (s : State) : bool :=
  bool_decide (activeFilterType s = Some t).

(** The code unit U+F8FF appended to the prefix (bytes EF A3 BF). *)
Definition uf8ff : string :=
  String "239" (String "163" (String "191" EmptyString)).

(** The [useMemo] that builds the predicates. *)
Definition constraints (s : State) : list QueryConstraint :=
  let c : list QueryConstraint := [] in
  if filter_is TYear s && truthy (year s) then
    c ++ [Where "año" OpEq (OString (year s))]
  else if filter_is TSala s && truthy (salaNum s) then
    c ++ [Where "sala_num" OpEq (ONumberOf (salaNum s))]
  else if filter_is TExp s && truthy (expPrefix s) then
    (c ++ [Where "expediente" OpGe (OString (expPrefix s))])
      ++ [Where "expediente" OpLe (OString (expPrefix s ++ uf8ff)%string)]
  else c.

Definition obField (s : State) : string :=
  let obField := field_name (orderByField s) in
  if filter_is TSala s then "sala_num"
  else if filter_is TYear s then "año"
  else if filter_is TExp s then "expediente"
  else obField.

Definition options (s : State) (startAfterSnapshot : option DocumentSnapshot)
    : FirestoreService.Options :=
  {| FirestoreService.orderByField := Some (obField s);
     FirestoreService.order := Some (order s);
     FirestoreService.startAfterSnapshot := startAfterSnapshot;
     FirestoreService.constraints := Some (constraints s) |}.

Definition errorMessage (e : Thrown) : string :=
  match e with
  | ErrorInstance message => message
  | NotAnError => "Error cargando datos"
  end.

Definition fetchPage (store : Store) (reset : bool)
    (startAfterSnapshot : option DocumentSnapshot) (w : World) : World :=
  let s := ui w in
  let s1 := setErr None (setLoading true s) in
  match FirestoreService.getPaged store COLLECTION PAGE_SIZE
          (Some (options s startAfterSnapshot)) (sent w) with
  | (inr page, sent') =>
      let s2 := setNextCursor (FirestoreService.nextCursor page)
                  (setRows (FirestoreService.data page) s1) in
      let s3 :=
        if reset then
          setCursorStack
            (match startAfterSnapshot with Some c => [c] | None => [] end) s2
        else s2 in
      {| ui := setLoading false s3; sent := sent' |}
  | (inl e, sent') =>
      {| ui := setLoading false (setErr (Some (errorMessage e)) s1);
         sent := sent' |}
  end.

Definition onNext (store : Store) (w : World) : World :=
  match nextCursor (ui w) with
  | None => w
  | Some c =>
      let w1 := {| ui := setCursorStack (cursorStack (ui w) ++ [c]) (ui w);
                   sent := sent w |} in
      fetchPage store false (Some c) w1
  end.

Definition onPrev (store : Store) (w : World) : World :=
  let s := cursorStack (ui w) in
  if (length s =? 0)%nat then w
  else
    let newStack := removelast s in
    let newStartAfter := last newStack in
    let w1 := fetchPage store false newStartAfter w in
    {| ui := setCursorStack newStack (ui w1); sent := sent w1 |}.

Definition canPrev (s : State) : bool := negb (length (cursorStack s) =? 0)%nat.
Definition canNext (s : State) : bool := bool_decide (is_Some (nextCursor s)).

Definition activeFilter (s : State) : option (string * string) :=
  if filter_is TYear s && truthy (year s) then Some ("Año", year s)
  else if filter_is TSala s && truthy (salaNum s) then Some ("Sala", salaNum s)
  else if filter_is TExp s && truthy (expPrefix s)
       then Some ("Expediente", expPrefix s)
  else None.

(** The controls of the page. *)
Inductive Event :=
| ClickYear | ClickSala | ClickExpediente | ClickSinFiltro
| ChangeYear (v : string) | ChangeSalaNum (v : string)
| ChangeExpPrefix (v : string)
| ChangeOrder (v : Direction)
| ClickAplicar
| ClickBadge
| ClickAnterior | ClickSiguiente.

(** A control can be used when it is rendered and not disabled. *)
Definition enabled (ev : Event) (s : State) : bool :=
  match ev with
  | ChangeYear _ => filter_is TYear s
  | ChangeSalaNum _ => filter_is TSala s
  | ChangeExpPrefix _ => filter_is TExp s
  | ClickAplicar => negb (loading s)
  | ClickBadge => bool_decide (is_Some (activeFilter s))
  | ClickAnterior => canPrev s && negb (loading s)
  | ClickSiguiente => canNext s && negb (loading s)
  | _ => true
  end.

(** The state setters an [onClick] or [onChange] handler runs. *)
Definition update (ev : Event) (s : State) : State :=
  match ev with
  | ClickYear => setExpPrefix "" (setSalaNum "" (setActiveFilterType (Some TYear) s))
  | ClickSala => setExpPrefix "" (setYear "" (setActiveFilterType (Some TSala) s))
  | ClickExpediente => setSalaNum "" (setYear "" (setActiveFilterType (Some TExp) s))
  | ClickSinFiltro | ClickBadge =>
      setExpPrefix "" (setSalaNum "" (setYear "" (setActiveFilterType None s)))
  | ChangeYear v => setYear v s
  | ChangeSalaNum v => setSalaNum v s
  | ChangeExpPrefix v => setExpPrefix v s
  | ChangeOrder v => setOrder v s
  | ClickAplicar | ClickAnterior | ClickSiguiente => s
  end.

(** What the dependency arrays of [useMemo] and [useEffect] compare. *)
Definition identity (s : State) :=
  (orderByField s, order s, (activeFilterType s, year s, salaNum s, expPrefix s)).

Definition depsChanged (s s' : State) : bool :=
  negb (bool_decide (identity s = identity s')).

(** A handler, followed by the effect when a dependency changed. *)
Definition handle (store : Store) (ev : Event) (w : World) : World :=
  match ev with
  | ClickAplicar => fetchPage store true None w
  | ClickSiguiente => onNext store w
  | ClickAnterior => onPrev store w
  | _ =>
      let w' := {| ui := update ev (ui w); sent := sent w |} in
      if depsChanged (ui w) (ui w') then fetchPage store true None w' else w'
  end.

(** Mounting runs the effect once. *)
Definition mount (store : Store) : World :=
  fetchPage store true None {| ui := initial; sent := [] |}.

Inductive reachable (store : Store) : World -> Prop :=
| reach_mount : reachable store (mount store)
| reach_event ev w :
    reachable store w -> enabled ev (ui w) = true ->
    reachable store (handle store ev w).

(** The three fetch operations of the paginator. *)
Inductive FetchOp :=
| ResetAndFetchFirstPage
| FetchNext
| FetchPrevious.

Definition runOp (store : Store) (op : FetchOp) (w : World) : World :=
  match op with
  | ResetAndFetchFirstPage => fetchPage store true None w
  | FetchNext => onNext store w
  | FetchPrevious => onPrev store w
  end.

(** The session state of the paginator. *)
Definition session (s : State) :=
  (cursorStack s, rows s, nextCursor s).

(** The query a page fetch sends. *)
Definition pageQuery (s : State) (startAfterSnapshot : option DocumentSnapshot)
    : Query :=
  FirestoreService.buildQuery COLLECTION PAGE_SIZE
    (Some (options s startAfterSnapshot)).

(** The input that belongs to the selected filter. *)
Definition activeInput (s : State) : string :=
  match activeFilterType s with
  | Some TYear => year s
  | Some TSala => salaNum s
  | Some TExp => expPrefix s
  | None => ""
  end.

Definition prefixActive (s : State) : Prop :=
  activeFilterType s = Some TExp /\ expPrefix s <> "".

(** How many of the inputs year, sala and expediente are filled in. *)
Definition filledInputs (s : State) : nat :=
  (Nat.b2n (truthy (year s)) + Nat.b2n (truthy (salaNum s))
   + Nat.b2n (truthy (expPrefix s)))%nat.

(** Only the input of the selected filter may be filled in. *)
Definition othersBlank (s : State) : Prop :=
  (activeFilterType s <> Some TYear -> year s = "")
  /\ (activeFilterType s <> Some TSala -> salaNum s = "")
  /\ (activeFilterType s <> Some TExp -> expPrefix s = "").

End Table.

(** ** The second version of the component (src/unnamed/part_000) *)

Module Table2.

(** [keyof Decision | "createdAt"]. *)
Inductive Field :=
| FYear | FDay | FExp | FId | FMonth | FSala | FSalaNum | FUrl | FCreatedAt.

Definition field_name (f : Field) : string :=
  match f with
  | FYear => "year"
  | FDay => "day"
  | FExp => "exp"
  | FId => "id"
  | FMonth => "month"
  | FSala => "sala"
  | FSalaNum => "sala_num"
  | FUrl => "url"
  | FCreatedAt => "createdAt"
  end.

Definition COLLECTION : string := "sentencias".
Definition PAGE_SIZE : Z := 50.

Definition MONTHS : list string :=
  [ "Enero"; "Febrero"; "Marzo"; "Abril"; "Mayo"; "Junio"; "Julio";
    "Agosto"; "Septiembre"; "Octubre"; "Noviembre"; "Diciembre" ].

(** The [value]s of [SALA_OPTIONS]. *)
Definition SALA_VALUES : list string :=
  [ "0"; "1"; "2"; "3"; "4"; "5"; "6"; "7"; "8"; "9"; "10"; "11"; "12";
    "13"; "14"; "15"; "16"; "17"; "18"; "19"; "20" ].

#[global] Instance Field_eq_dec : EqDecision Field.
Proof. solve_decision. Defined.

(** [String.prototype.toLowerCase] on the letters A-Z; the month names
    it is applied to have no other capital letter. *)
Definition lower_ascii (c : ascii) : ascii :=
  let n := nat_of_ascii c in
  if ((65 <=? n) && (n <=? 90))%nat then ascii_of_nat (n + 32) else c.

Fixpoint toLowerCase (s : string) : string :=
  match s with
  | EmptyString => EmptyString
  | String c r => String (lower_ascii c) (toLowerCase r)
  end.

(** The [useState] cells of the component and the [orderByField] ref. *)
Record State := {
  rows : list FirestoreService.Row;
  orderByField : Field;
  order : Direction;
  year : string;
  salaNum : string;
  expPrefix : string;
  monthFilter : string;
  cursorStack : list DocumentSnapshot;
  nextCursor : option DocumentSnapshot;
  loading : bool;
  err : option string
}.

Definition initial : State :=
  {| rows := []; orderByField := FYear; order := desc;
     year := ""; salaNum := ""; expPrefix := ""; monthFilter := "";
     cursorStack := []; nextCursor := None; loading := false; err := None |}.

Definition setRows v (s : State) : State :=
  {| rows := v; orderByField := orderByField s; order := order s;
     year := year s; salaNum := salaNum s; expPrefix := expPrefix s;
     monthFilter := monthFilter s;
     cursorStack := cursorStack s; nextCursor := nextCursor s;
     loading := loading s; err := err s |}.
Definition setOrder v (s : State) : State :=
  {| rows := rows s; orderByField := orderByField s; order := v;
     year := year s; salaNum := salaNum s; expPrefix := expPrefix s;
     monthFilter := monthFilter s;
     cursorStack := cursorStack s; nextCursor := nextCursor s;
     loading := loading s; err := err s |}.
Definition setYear v (s : State) : State :=
  {| rows := rows s; orderByField := orderByField s; order := order s;
     year := v; salaNum := salaNum s; expPrefix := expPrefix s;
     monthFilter := monthFilter s;
     cursorStack := cursorStack s; nextCursor := nextCursor s;
     loading := loading s; err := err s |}.
Definition setSalaNum v (s : State) : State :=
  {| rows := rows s; orderByField := orderByField s; order := order s;
     year := year s; salaNum := v; expPrefix := expPrefix s;
     monthFilter := monthFilter s;
     cursorStack := cursorStack s; nextCursor := nextCursor s;
     loading := loading s; err := err s |}.
Definition setExpPrefix v (s : State) : State :=
  {| rows := rows s; orderByField := orderByField s; order := order s;
     year := year s; salaNum := salaNum s; expPrefix := v;
     monthFilter := monthFilter s;
     cursorStack := cursorStack s; nextCursor := nextCursor s;
     loading := loading s; err := err s |}.
Definition setMonthFilter v (s : State) : State :=
  {| rows := rows s; orderByField := orderByField s; order := order s;
     year := year s; salaNum := salaNum s; expPrefix := expPrefix s;
     monthFilter := v;
     cursorStack := cursorStack s; nextCursor := nextCursor s;
     loading := loading s; err := err s |}.
Definition setCursorStack v (s : State) : State :=
  {| rows := rows s; orderByField := orderByField s; order := order s;
     year := year s; salaNum := salaNum s; expPrefix := expPrefix s;
     monthFilter := monthFilter s;
     cursorStack := v; nextCursor := nextCursor s;
     loading := loading s; err := err s |}.
Definition setNextCursor v (s : State) : State :=
  {| rows := rows s; orderByField := orderByField s; order := order s;
     year := year s; salaNum := salaNum s; expPrefix := expPrefix s;
     monthFilter := monthFilter s;
     cursorStack := cursorStack s; nextCursor := v;
     loading := loading s; err := err s |}.
Definition setLoading v (s : State) : State :=
  {| rows := rows s; orderByField := orderByField s; order := order s;
     year := year s; salaNum := salaNum s; expPrefix := expPrefix s;
     monthFilter := monthFilter s;
     cursorStack := cursorStack s; nextCursor := nextCursor s;
     loading := v; err := err s |}.
Definition setErr v (s : State) : State :=
  {| rows := rows s; orderByField := orderByField s; order := order s;
     year := year s; salaNum := salaNum s; expPrefix := expPrefix s;
     monthFilter := monthFilter s;
     cursorStack := cursorStack s; nextCursor := nextCursor s;
     loading := loading s; err := v |}.

Record World := { ui : State; sent : list Query }.

Definition uf8ff : string :=
  String "239" (String "163" (String "191" EmptyString)).

(** The [useMemo] that builds the predicates: one block per filter. *)
Definition constraints (s : State) : list QueryConstraint :=
  let c0 : list QueryConstraint := [] in
  let c1 := if truthy (year s)
            then c0 ++ [Where "year" OpEq (OString (year s))] else c0 in
  let c2 := if truthy (salaNum s)
            then c1 ++ [Where "sala_num" OpEq (ONumberOf (salaNum s))] else c1 in
  let c3 := if truthy (monthFilter s)
            then c2 ++ [Where "month" OpEq (OString (toLowerCase (monthFilter s)))]
            else c2 in
  let c4 := if truthy (expPrefix s)
            then (c3 ++ [Where "exp" OpGe (OString (expPrefix s))])
                   ++ [Where "exp" OpLe (OString (expPrefix s ++ uf8ff)%string)]
            else c3 in
  c4.

Definition obField (s : State) : string :=
  let obField := field_name (orderByField s) in
  if truthy (expPrefix s) then "exp" else obField.

Definition options (s : State) (startAfterSnapshot : option DocumentSnapshot)
    : FirestoreService.Options :=
  {| FirestoreService.orderByField := Some (obField s);
     FirestoreService.order := Some (order s);
     FirestoreService.startAfterSnapshot := startAfterSnapshot;
     FirestoreService.constraints := Some (constraints s) |}.

Definition errorMessage (e : Thrown) : string :=
  match e with
  | ErrorInstance message => message
  | NotAnError => "Error cargando datos"
  end.

Definition fetchPage (store : Store) (reset : bool)
    (startAfterSnapshot : option DocumentSnapshot) (w : World) : World :=
  let s := ui w in
  let s1 := setErr None (setLoading true s) in
  match FirestoreService.getPaged store COLLECTION PAGE_SIZE
          (Some (options s startAfterSnapshot)) (sent w) with
  | (inr page, sent') =>
      let s2 := setNextCursor (FirestoreService.nextCursor page)
                  (setRows (FirestoreService.data page) s1) in
      let s3 :=
        if reset then
          setCursorStack
            (match startAfterSnapshot with Some c => [c] | None => [] end) s2
        else s2 in
      {| ui := setLoading false s3; sent := sent' |}
  | (inl e, sent') =>
      {| ui := setLoading false (setErr (Some (errorMessage e)) s1);
         sent := sent' |}
  end.

Definition onNext (store : Store) (w : World) : World :=
  match nextCursor (ui w) with
  | None => w
  | Some c =>
      let w1 := {| ui := setCursorStack (cursorStack (ui w) ++ [c]) (ui w);
                   sent := sent w |} in
      fetchPage store false (Some c) w1
  end.

Definition onPrev (store : Store) (w : World) : World :=
  let s := cursorStack (ui w) in
  if (length s =? 0)%nat then w
  else
    let newStack := removelast s in
    let newStartAfter := last newStack in
    let w1 := fetchPage store false newStartAfter w in
    {| ui := setCursorStack newStack (ui w1); sent := sent w1 |}.

Definition canPrev (s : State) : bool := negb (length (cursorStack s) =? 0)%nat.
Definition canNext (s : State) : bool := bool_decide (is_Some (nextCursor s)).

(** The labels of the chips shown under the inputs. *)
Definition activeFilters (s : State) : list string :=
  (if truthy (year s) then ["Año"] else [])
    ++ (if truthy (monthFilter s) then ["Mes"] else [])
    ++ (if truthy (salaNum s) then ["Sala"] else [])
    ++ (if truthy (expPrefix s) then ["Expediente"] else []).

(** The controls of the page. *)
Inductive Event :=
| ChangeYear (v : string)
| ChangeMonth (v : string)
| ChangeSalaNum (v : string)
| ToggleOrder
| ClearYear | ClearMonth | ClearSala | ClearExpediente
| ClickLimpiarTodos
| ClickAnterior | ClickSiguiente.

(** A control can be used when it is rendered and not disabled; a
    [select] only offers its options. *)
Definition enabled (ev : Event) (s : State) : bool :=
  match ev with
  | ChangeYear _ => true
  | ChangeMonth v => bool_decide (v ∈ "" :: MONTHS)
  | ChangeSalaNum v => bool_decide (v ∈ "" :: SALA_VALUES)
  | ToggleOrder => true
  | ClearYear => truthy (year s)
  | ClearMonth => truthy (monthFilter s)
  | ClearSala => truthy (salaNum s)
  | ClearExpediente => truthy (expPrefix s)
  | ClickLimpiarTodos => negb (length (activeFilters s) =? 0)%nat
  | ClickAnterior => canPrev s && negb (loading s)
  | ClickSiguiente => canNext s && negb (loading s)
  end.

Definition update (ev : Event) (s : State) : State :=
  match ev with
  | ChangeYear v => setYear v s
  | ChangeMonth v => setMonthFilter v s
  | ChangeSalaNum v => setSalaNum v s
  | ToggleOrder =>
      setOrder (if bool_decide (order s = asc) then desc else asc) s
  | ClearYear => setYear "" s
  | ClearMonth => setMonthFilter "" s
  | ClearSala => setSalaNum "" s
  | ClearExpediente => setExpPrefix "" s
  | ClickLimpiarTodos =>
      setExpPrefix "" (setSalaNum "" (setMonthFilter "" (setYear "" s)))
  | ClickAnterior | ClickSiguiente => s
  end.

(** What the dependency arrays compare; the ref object [orderByField]
    is the same object at every render. *)
Definition identity (s : State) :=
  (order s, (year s, salaNum s, monthFilter s, expPrefix s)).

Definition depsChanged (s s' : State) : bool :=
  negb (bool_decide (identity s = identity s')).

Definition handle (store : Store) (ev : Event) (w : World) : World :=
  match ev with
  | ClickSiguiente => onNext store w
  | ClickAnterior => onPrev store w
  | _ =>
      let w' := {| ui := update ev (ui w); sent := sent w |} in
      if depsChanged (ui w) (ui w') then fetchPage store true None w' else w'
  end.

Definition mount (store : Store) : World :=
  fetchPage store true None {| ui := initial; sent := [] |}.

Inductive reachable (store : Store) : World -> Prop :=
| reach_mount : reachable store (mount store)
| reach_event ev w :
    reachable store w -> enabled ev (ui w) = true ->
    reachable store (handle store ev w).

Inductive FetchOp :=
| ResetAndFetchFirstPage
| FetchNext
| FetchPrevious.

Definition runOp (store : Store) (op : FetchOp) (w : World) : World :=
  match op with
  | ResetAndFetchFirstPage => fetchPage store true None w
  | FetchNext => onNext store w
  | FetchPrevious => onPrev store w
  end.

Definition session (s : State) :=
  (cursorStack s, rows s, nextCursor s).

Definition pageQuery (s : State) (startAfterSnapshot : option DocumentSnapshot)
    : Query :=
  FirestoreService.buildQuery COLLECTION PAGE_SIZE
    (Some (options s startAfterSnapshot)).

(** The four filters, their inputs and the fields they constrain. *)
Inductive Filter := ByYear | BySala | ByMonth | ByExpediente.

Definition input (k : Filter) (s : State) : string :=
  match k with
  | ByYear => year s
  | BySala => salaNum s
  | ByMonth => monthFilter s
  | ByExpediente => expPrefix s
  end.

Definition filterField (k : Filter) : string :=
  match k with
  | ByYear => "year"
  | BySala => "sala_num"
  | ByMonth => "month"
  | ByExpediente => "exp"
  end.

Definition prefixActive (s : State) : Prop := expPrefix s <> "".

(** Everything [pageQuery] reads from the state. *)
Definition queryInputs (s : State) :=
  (orderByField s, order s, year s, salaNum s, monthFilter s, expPrefix s).

Definition filledInputs (s : State) : nat :=
  (Nat.b2n (truthy (year s)) + Nat.b2n (truthy (salaNum s))
   + Nat.b2n (truthy (expPrefix s)))%nat.

End Table2.

(** ** An in-memory document store *)

Module MemStore.

(** Decimal reading of [Number(s)], for strings of digits. *)
Fixpoint digits (s : string) (acc : Z) : option Z :=
  match s with
  | EmptyString => Some acc
  | String c r =>
      let n := Z.of_nat (nat_of_ascii c) in
      if (48 <=? n) && (n <=? 57) then digits r (10 * acc + (n - 48))
      else None
  end.

Definition value_holds (op : WhereOp) (v : Value) (o : Operand) : bool :=
  match v, o with
  | VString a, OString b => string_op_holds op a b
  | VNumber a, ONumberOf s =>
      match digits s 0, op with
      | Some b, OpEq => a =? b
      | Some b, OpGe => b <=? a
      | Some b, OpLe => a <=? b
      | None, _ => false
      end
  | _, _ => false
  end.

Definition satisfies (d : DocumentSnapshot) (c : QueryConstraint) : bool :=
  match c with
  | Where f op o =>
      match snap_data d !! f with
      | Some v => value_holds op v o
      | None => false
      end
  | _ => true
  end.

(** Numbers sort before strings. *)
Definition value_leb (a b : Value) : bool :=
  match a, b with
  | VNumber x, VNumber y => x <=? y
  | VNumber _, VString _ => true
  | VString _, VNumber _ => false
  | VString x, VString y => String.leb x y
  end.

Definition key_leb (f : string) (dir : Direction) (a b : DocumentSnapshot) : bool :=
  match snap_data a !! f, snap_data b !! f with
  | Some x, Some y =>
      match dir with asc => value_leb x y | desc => value_leb y x end
  | _, _ => true
  end.

Fixpoint insert_by (le : DocumentSnapshot -> DocumentSnapshot -> bool)
    (d : DocumentSnapshot) (l : list DocumentSnapshot) : list DocumentSnapshot :=
  match l with
  | [] => [d]
  | x :: r => if le d x then d :: l else x :: insert_by le d r
  end.

Definition sort_by (le : DocumentSnapshot -> DocumentSnapshot -> bool)
    (l : list DocumentSnapshot) : list DocumentSnapshot :=
  foldr (insert_by le) [] l.

(** The documents strictly after the position of the document [id]. *)
Fixpoint after (id : string) (l : list DocumentSnapshot) : list DocumentSnapshot :=
  match l with
  | [] => []
  | d :: r => if String.eqb (snap_id d) id then r else after id r
  end.

Definition apply_order (l : list DocumentSnapshot) (c : QueryConstraint) :=
  match c with
  | OrderBy f dir =>
      sort_by (key_leb f dir)
        (List.filter (fun d => bool_decide (is_Some (snap_data d !! f))) l)
  | _ => l
  end.

Definition apply_start (l : list DocumentSnapshot) (c : QueryConstraint) :=
  match c with
  | StartAfter s => after (snap_id s) l
  | _ => l
  end.

Definition apply_limit (l : list DocumentSnapshot) (c : QueryConstraint) :=
  match c with
  | Limit n => take (Z.to_nat n) l
  | _ => l
  end.

(** Modelled from the spec: the store's [query] primitive, which is not
    part of the repository.  It returns at most [limit] documents that
    satisfy all predicates, ordered by the order-by clause, starting
    strictly after the start position when one is given. *)
Definition run (docs : list DocumentSnapshot) (q : Query) : list DocumentSnapshot :=
  let cs := q_constraints q in
  let matching := List.filter (fun d => forallb (satisfies d) cs) docs in
  let ordered := foldl apply_order matching cs in
  let started := foldl apply_start ordered cs in
  foldl apply_limit started cs.

Definition serve (docs : list DocumentSnapshot) : Store :=
  fun q => inr (run docs q).

(** A store that rejects the queries selected by [bad]. *)
Definition serveUnless (bad : Query -> bool) (e : Thrown)
    (docs : list DocumentSnapshot) : Store :=
  fun q => if bad q then inl e else inr (run docs q).

Definition hasStartAfter (q : Query) : bool :=
  negb (length (start_positions q) =? 0)%nat.

Definition ordersBy (f : string) (q : Query) : bool :=
  bool_decide (f ∈ order_by_fields q).

(** A sample collection of 120 decisions. *)
Definition decision (i : nat) : DocumentSnapshot :=
  {| snap_id := ("doc" ++ pretty i)%string;
     snap_data :=
       {[ "año" := VString (pretty (2000 + i / 10)%nat);
          "year" := VString (pretty (2000 + i / 10)%nat);
          "sala_num" := VNumber (Z.of_nat (i mod 21));
          "expediente" := VString ("AA" ++ pretty (1000 + i)%nat)%string;
          "exp" := VString ("AA" ++ pretty (1000 + i)%nat)%string ]} |}.

Definition sample : list DocumentSnapshot := map decision (seq 0 120).

End MemStore.


(** U+FFFD, the replacement character (bytes EF BF BD). *)
Definition ufffd : string :=
  String "239" (String "191" (String "189" EmptyString)).

(** ** Notions used to state the behaviour of the paginator *)

(** The [limit] clauses and the predicates of a query. *)
Definition limits (q : Query) : list Z :=
  omap (fun c => match c with Limit n => Some n | _ => None end)
       (q_constraints q).

Definition predicates (q : Query) : list QueryConstraint :=
  List.filter is_where (q_constraints q).

(** What [err] should hold after the request [q]. *)
Definition outcomeOf (store : Store) (q : Query) : option string :=
  match store q with
  | inr _ => None
  | inl (ErrorInstance message) => Some message
  | inl NotAnError => Some "Error cargando datos"
  end.

Module TableView.
Import Table.

(** The flags tell the outcome of the most recent request. *)
Definition flagsSettled (store : Store) (w : World) : Prop :=
  loading (ui w) = false
  /\ exists q, last (sent w) = Some q /\ err (ui w) = outcomeOf store q.

(** The rows are the store's answer to the current query, started after
    the top of the cursor stack. *)
Definition showsCurrentPage (store : Store) (s : State) : Prop :=
  exists docs,
    store (pageQuery s (last (cursorStack s))) = inr docs
    /\ rows s = map FirestoreService.toRow docs
    /\ nextCursor s
       = FirestoreService.nextCursor (FirestoreService.pageOf PAGE_SIZE docs).

End TableView.

Module Table2View.
Import Table2.

(** [SALA_OPTIONS], as (label, value) pairs. *)
Definition SALA_OPTIONS : list (string * string) :=
  [ ("Sala Plena", "0"); ("Sala Constitucional", "1");
    ("Sala Politico-Administrativa", "2"); ("Sala Electoral", "3");
    ("Sala Civil", "4"); ("Sala Penal", "5"); ("Sala Social", "6");
    ("Comision Judicial", "7"); ("Sala Habilitada", "8");
    ("Vice Presidencia", "9"); ("Sala Especial Primera", "10");
    ("JDS - Sala Plena", "11"); ("JDS - Sala Constitucional", "12");
    ("JDS - Sala Politico-Administrativa", "13");
    ("JDS - Sala Electorial", "14"); ("JDS - Sala Civil", "15");
    ("JDS - Sala Social", "16"); ("Sala Especial Segunda", "17");
    ("Sala Especial Primera", "18"); ("Presidencia", "19");
    ("Sala Especial", "20") ].

(** [SALA_OPTIONS.find((option) => option.value === salaNum)]. *)
Definition findOption (v : string) : option (string * string) :=
  List.find (fun o => String.eqb (snd o) v) SALA_OPTIONS.

Definition selectedSalaLabel (s : State) : string :=
  match findOption (salaNum s) with
  | Some o => fst o
  | None => salaNum s
  end.

(** The chips of [activeFilters], as (label, value) pairs. *)
Definition activeFilterChips (s : State) : list (string * string) :=
  (if truthy (year s) then [("Año", year s)] else [])
    ++ (if truthy (monthFilter s) then [("Mes", monthFilter s)] else [])
    ++ (if truthy (salaNum s) then [("Sala", selectedSalaLabel s)] else [])
    ++ (if truthy (expPrefix s) then [("Expediente", expPrefix s)] else []).

Definition flagsSettled (store : Store) (w : World) : Prop :=
  loading (ui w) = false
  /\ exists q, last (sent w) = Some q /\ err (ui w) = outcomeOf store q.

Definition showsCurrentPage (store : Store) (s : State) : Prop :=
  exists docs,
    store (pageQuery s (last (cursorStack s))) = inr docs
    /\ rows s = map FirestoreService.toRow docs
    /\ nextCursor s
       = FirestoreService.nextCursor (FirestoreService.pageOf PAGE_SIZE docs).

(** What the controls of this version can put into the inputs. *)
Definition inputsFromControls (s : State) : Prop :=
  orderByField s = FYear
  /\ expPrefix s = ""
  /\ salaNum s ∈ "" :: SALA_VALUES
  /\ monthFilter s ∈ "" :: MONTHS.

End Table2View.

(** ** Requests in flight (src/components/Table.tsx) *)

Module TableAsync.
Import Table.

(** A call of [fetchPage] waiting at its [await]: the arguments it was
    called with and the query it has sent. *)
Record Pending := {
  p_reset : bool;
  p_startAfter : option DocumentSnapshot;
  p_query : Query
}.

(** The component, the queries sent so far and the calls that wait. *)
Record World := {
  state : State;
  log : list Query;
  waiting : list Pending
}.

(** [fetchPage] up to its [await]: the flags are set and the query of
    [getPaged] leaves. *)
Definition fetchPage_begin (reset : bool)
    (startAfterSnapshot : option DocumentSnapshot) (w : World) : World :=
  let s := state w in
  let q := FirestoreService.buildQuery COLLECTION PAGE_SIZE
             (Some (options s startAfterSnapshot)) in
  {| state := setErr None (setLoading true s);
     log := log w ++ [q];
     waiting := waiting w
                  ++ [{| p_reset := reset;
                         p_startAfter := startAfterSnapshot;
                         p_query := q |}] |}.

(** [fetchPage] from its [await] on, applied to the state of that
    moment: the rest of the [try] block, or [catch], then [finally]. *)
Definition fetchPage_end (store : Store) (p : Pending) (s : State) : State :=
  match store (p_query p) with
  | inr docs =>
      let page := FirestoreService.pageOf PAGE_SIZE docs in
      let s2 := setNextCursor (FirestoreService.nextCursor page)
                  (setRows (FirestoreService.data page) s) in
      let s3 :=
        if p_reset p then
          setCursorStack
            (match p_startAfter p with Some c => [c] | None => [] end) s2
        else s2 in
      setLoading false s3
  | inl e => setLoading false (setErr (Some (errorMessage e)) s)
  end.

Definition onNext (w : World) : World :=
  match nextCursor (state w) with
  | None => w
  | Some c =>
      let w1 := {| state := setCursorStack (cursorStack (state w) ++ [c]) (state w);
                   log := log w; waiting := waiting w |} in
      fetchPage_begin false (Some c) w1
  end.

Definition onPrev (w : World) : World :=
  let s := cursorStack (state w) in
  if (length s =? 0)%nat then w
  else
    let newStack := removelast s in
    let newStartAfter := last newStack in
    let w1 := fetchPage_begin false newStartAfter w in
    {| state := setCursorStack newStack (state w1);
       log := log w1; waiting := waiting w1 |}.

(** A control is used, or the store settles the i-th waiting call. *)
Inductive Step :=
| Use (ev : Event)
| Answer (i : nat).

Definition enabled (st : Step) (w : World) : bool :=
  match st with
  | Use ev => Table.enabled ev (state w)
  | Answer i => bool_decide (i < length (waiting w))%nat
  end.

Definition handle (store : Store) (st : Step) (w : World) : World :=
  match st with
  | Use ClickAplicar => fetchPage_begin true None w
  | Use ClickSiguiente => onNext w
  | Use ClickAnterior => onPrev w
  | Use ev =>
      let w' := {| state := update ev (state w);
                   log := log w; waiting := waiting w |} in
      if depsChanged (state w) (state w') then fetchPage_begin true None w'
      else w'
  | Answer i =>
      match waiting w !! i with
      | Some p => {| state := fetchPage_end store p (state w);
                     log := log w;
                     waiting := delete i (waiting w) |}
      | None => w
      end
  end.

Definition mount : World :=
  fetchPage_begin true None {| state := initial; log := []; waiting := [] |}.

(** Controls and answers in any order. *)
Inductive reachable (store : Store) : World -> Prop :=
| reach_mount : reachable store mount
| reach_step st w :
    reachable store w -> enabled st w = true ->
    reachable store (handle store st w).

(** Single flight: a control is used only when no call is waiting. *)
Inductive singleFlight (store : Store) : World -> Prop :=
| single_mount : singleFlight store mount
| single_use ev w :
    singleFlight store w -> waiting w = [] -> enabled (Use ev) w = true ->
    singleFlight store (handle store (Use ev) w)
| single_answer i w :
    singleFlight store w -> enabled (Answer i) w = true ->
    singleFlight store (handle store (Answer i) w).

(** The component and its log, without the waiting calls. *)
Definition settled (w : World) : Table.World :=
  {| Table.ui := state w; Table.sent := log w |}.

(** The store returned a page of [PAGE_SIZE] documents ending in [c] to
    one of the queries [l]. *)
Definition returned (store : Store) (l : list Query) (c : DocumentSnapshot)
    : Prop :=
  exists q docs,
    q ∈ l /\ store q = inr docs /\ last docs = Some c
    /\ Z.of_nat (length docs) = PAGE_SIZE.

Definition waitingSent (w : World) : Prop :=
  Forall (fun p => p_query p ∈ log w
                   /\ (p_reset p = true -> p_startAfter p = None))
         (waiting w).

(** [loading] is false when nothing waits, and an error shown is the
    message of a query that was sent and that the store rejects. *)
Definition flagsSound (store : Store) (w : World) : Prop :=
  (waiting w = [] -> loading (state w) = false)
  /\ forall m, err (state w) = Some m ->
       exists q e, q ∈ log w /\ store q = inl e /\ errorMessage e = m.

(** Rows and next cursor are still the initial ones, or together the
    page the store returns to one of the queries sent. *)
Definition pageFromLog (store : Store) (w : World) : Prop :=
  (rows (state w) = [] /\ nextCursor (state w) = None)
  \/ exists q docs,
       q ∈ log w /\ store q = inr docs
       /\ rows (state w) = map FirestoreService.toRow docs
       /\ nextCursor (state w)
          = FirestoreService.nextCursor
              (FirestoreService.pageOf PAGE_SIZE docs).

Definition cursorsReturned (store : Store) (w : World) : Prop :=
  (forall c, nextCursor (state w) = Some c -> returned store (log w) c)
  /\ Forall (returned store (log w)) (cursorStack (state w)).

Definition invariant (store : Store) (w : World) : Prop :=
  waitingSent w /\ flagsSound store w /\ pageFromLog store w
  /\ Forall (returned store (log w)) (cursorStack (state w)).

End TableAsync.

(** ** Requests in flight (src/unnamed/part_000) *)

Module Table2Async.
Import Table2.

(** A call of [fetchPage] waiting at its [await]: the arguments it was
    called with and the query it has sent. *)
Record Pending := {
  p_reset : bool;
  p_startAfter : option DocumentSnapshot;
  p_query : Query
}.

(** The component, the queries sent so far and the calls that wait. *)
Record World := {
  state : State;
  log : list Query;
  waiting : list Pending
}.

(** [fetchPage] up to its [await]: the flags are set and the query of
    [getPaged] leaves. *)
Definition fetchPage_begin (reset : bool)
    (startAfterSnapshot : option DocumentSnapshot) (w : World) : World :=
  let s := state w in
  let q := FirestoreService.buildQuery COLLECTION PAGE_SIZE
             (Some (options s startAfterSnapshot)) in
  {| state := setErr None (setLoading true s);
     log := log w ++ [q];
     waiting := waiting w
                  ++ [{| p_reset := reset;
                         p_startAfter := startAfterSnapshot;
                         p_query := q |}] |}.

(** [fetchPage] from its [await] on, applied to the state of that
    moment: the rest of the [try] block, or [catch], then [finally]. *)
Definition fetchPage_end (store : Store) (p : Pending) (s : State) : State :=
  match store (p_query p) with
  | inr docs =>
      let page := FirestoreService.pageOf PAGE_SIZE docs in
      let s2 := setNextCursor (FirestoreService.nextCursor page)
                  (setRows (FirestoreService.data page) s) in
      let s3 :=
        if p_reset p then
          setCursorStack
            (match p_startAfter p with Some c => [c] | None => [] end) s2
        else s2 in
      setLoading false s3
  | inl e => setLoading false (setErr (Some (errorMessage e)) s)
  end.

Definition onNext (w : World) : World :=
  match nextCursor (state w) with
  | None => w
  | Some c =>
      let w1 := {| state := setCursorStack (cursorStack (state w) ++ [c]) (state w);
                   log := log w; waiting := waiting w |} in
      fetchPage_begin false (Some c) w1
  end.

Definition onPrev (w : World) : World :=
  let s := cursorStack (state w) in
  if (length s =? 0)%nat then w
  else
    let newStack := removelast s in
    let newStartAfter := last newStack in
    let w1 := fetchPage_begin false newStartAfter w in
    {| state := setCursorStack newStack (state w1);
       log := log w1; waiting := waiting w1 |}.

(** A control is used, or the store settles the i-th waiting call. *)
Inductive Step :=
| Use (ev : Event)
| Answer (i : nat).

Definition enabled (st : Step) (w : World) : bool :=
  match st with
  | Use ev => Table2.enabled ev (state w)
  | Answer i => bool_decide (i < length (waiting w))%nat
  end.

Definition handle (store : Store) (st : Step) (w : World) : World :=
  match st with
  | Use ClickSiguiente => onNext w
  | Use ClickAnterior => onPrev w
  | Use ev =>
      let w' := {| state := update ev (state w);
                   log := log w; waiting := waiting w |} in
      if depsChanged (state w) (state w') then fetchPage_begin true None w'
      else w'
  | Answer i =>
      match waiting w !! i with
      | Some p => {| state := fetchPage_end store p (state w);
                     log := log w;
                     waiting := delete i (waiting w) |}
      | None => w
      end
  end.

Definition mount : World :=
  fetchPage_begin true None {| state := initial; log := []; waiting := [] |}.

(** Controls and answers in any order. *)
Inductive reachable (store : Store) : World -> Prop :=
| reach_mount : reachable store mount
| reach_step st w :
    reachable store w -> enabled st w = true ->
    reachable store (handle store st w).

(** Single flight: a control is used only when no call is waiting. *)
Inductive singleFlight (store : Store) : World -> Prop :=
| single_mount : singleFlight store mount
| single_use ev w :
    singleFlight store w -> waiting w = [] -> enabled (Use ev) w = true ->
    singleFlight store (handle store (Use ev) w)
| single_answer i w :
    singleFlight store w -> enabled (Answer i) w = true ->
    singleFlight store (handle store (Answer i) w).

(** The component and its log, without the waiting calls. *)
Definition settled (w : World) : Table2.World :=
  {| Table2.ui := state w; Table2.sent := log w |}.

(** The store returned a page of [PAGE_SIZE] documents ending in [c] to
    one of the queries [l]. *)
Definition returned (store : Store) (l : list Query) (c : DocumentSnapshot)
    : Prop :=
  exists q docs,
    q ∈ l /\ store q = inr docs /\ last docs = Some c
    /\ Z.of_nat (length docs) = PAGE_SIZE.

Definition waitingSent (w : World) : Prop :=
  Forall (fun p => p_query p ∈ log w
                   /\ (p_reset p = true -> p_startAfter p = None))
         (waiting w).

(** [loading] is false when nothing waits, and an error shown is the
    message of a query that was sent and that the store rejects. *)
Definition flagsSound (store : Store) (w : World) : Prop :=
  (waiting w = [] -> loading (state w) = false)
  /\ forall m, err (state w) = Some m ->
       exists q e, q ∈ log w /\ store q = inl e /\ errorMessage e = m.

(** Rows and next cursor are still the initial ones, or together the
    page the store returns to one of the queries sent. *)
Definition pageFromLog (store : Store) (w : World) : Prop :=
  (rows (state w) = [] /\ nextCursor (state w) = None)
  \/ exists q docs,
       q ∈ log w /\ store q = inr docs
       /\ rows (state w) = map FirestoreService.toRow docs
       /\ nextCursor (state w)
          = FirestoreService.nextCursor
              (FirestoreService.pageOf PAGE_SIZE docs).

Definition cursorsReturned (store : Store) (w : World) : Prop :=
  (forall c, nextCursor (state w) = Some c -> returned store (log w) c)
  /\ Forall (returned store (log w)) (cursorStack (state w)).

Definition invariant (store : Store) (w : World) : Prop :=
  waitingSent w /\ flagsSound store w /\ pageFromLog store w
  /\ Forall (returned store (log w)) (cursorStack (state w)).

End Table2Async.

(** * Properties *)

(** ** The page-fetch primitive *)

Section GetPaged.
Import FirestoreService.

Lemma lastDoc_is_last (docs : list DocumentSnapshot) :
  (if (length docs =? 0)%nat then None else docs !! (length docs - 1)%nat)
  = last docs.
Proof.
  rewrite last_lookup.
  destruct docs as [|d docs]; [reflexivity|].
  cbn [length Nat.eqb]. f_equal. cbn. lia.
Qed.

Lemma pageOf_data pageSize docs : data (pageOf pageSize docs) = map toRow docs.
Proof. reflexivity. Qed.

Lemma pageOf_nextCursor pageSize docs :
  nextCursor (pageOf pageSize docs) =
  match last docs with
  | Some d => if Z.of_nat (length docs) =? pageSize then Some d else None
  | None => None
  end.
Proof.
  unfold pageOf. cbn [nextCursor]. rewrite lastDoc_is_last, length_map.
  reflexivity.
Qed.

Lemma getPaged_unfold store coll pageSize options sent :
  getPaged store coll pageSize options sent =
  (match store (buildQuery coll pageSize options) with
   | inl e => inl e
   | inr docs => inr (pageOf pageSize docs)
   end, sent ++ [buildQuery coll pageSize options]).
Proof.
  unfold getPaged, getDocs.
  destruct (store (buildQuery coll pageSize options)); reflexivity.
Qed.

Lemma getPaged_inr store coll pageSize options sent page sent' :
  getPaged store coll pageSize options sent = (inr page, sent') ->
  exists docs,
    store (buildQuery coll pageSize options) = inr docs
    /\ page = pageOf pageSize docs.
Proof.
  rewrite getPaged_unfold.
  destruct (store (buildQuery coll pageSize options)) as [e|docs];
    intros H; inversion H; subst. eauto.
Qed.

(** C2. A page returned by [getPaged] has no next cursor exactly when it
    holds fewer than [pageSize] records, for a positive page size and a
    store that returns at most [limit] documents. *)
Theorem getPaged_nextCursor_none_iff_short
    store coll pageSize options sent page sent' :
  0 < pageSize ->
  (forall docs, store (buildQuery coll pageSize options) = inr docs ->
                Z.of_nat (length docs) <= pageSize) ->
  getPaged store coll pageSize options sent = (inr page, sent') ->
  nextCursor page = None <-> Z.of_nat (length (data page)) < pageSize.
Proof.
  intros Hpos Hlimit Hget.
  destruct (getPaged_inr _ _ _ _ _ _ _ Hget) as (docs & Hstore & ->).
  specialize (Hlimit docs Hstore).
  rewrite pageOf_nextCursor, pageOf_data, length_map.
  destruct (last docs) as [d|] eqn:Hlast.
  - destruct (Z.eqb_spec (Z.of_nat (length docs)) pageSize); split;
      intros; try discriminate; try lia; reflexivity.
  - apply last_None in Hlast. subst docs. cbn. split; intros; [lia|reflexivity].
Qed.

(** C9. A next cursor returned by [getPaged] is the snapshot of the last
    document of the page, and the page then holds [pageSize] records. *)
Theorem getPaged_nextCursor_is_last_document
    store coll pageSize options sent page sent' c :
  getPaged store coll pageSize options sent = (inr page, sent') ->
  nextCursor page = Some c ->
  (exists docs,
      store (buildQuery coll pageSize options) = inr docs
      /\ data page = map toRow docs
      /\ last docs = Some c)
  /\ last (data page) = Some (toRow c)
  /\ Z.of_nat (length (data page)) = pageSize.
Proof.
  intros Hget Hc.
  destruct (getPaged_inr _ _ _ _ _ _ _ Hget) as (docs & Hstore & ->).
  rewrite pageOf_nextCursor in Hc. rewrite pageOf_data, length_map.
  destruct (last docs) as [d|] eqn:Hlast; [|discriminate].
  destruct (Z.eqb_spec (Z.of_nat (length docs)) pageSize); [|discriminate].
  injection Hc as ->.
  split; [exists docs; auto|]. split; [|assumption].
  change (map toRow docs) with (toRow <$> docs).
  rewrite fmap_last, Hlast. reflexivity.
Qed.

End GetPaged.

Lemma getPaged_nextCursor_none_iff_short_witness :
  let page :=
    FirestoreService.pageOf 50
      (MemStore.run (take 3 MemStore.sample)
         (FirestoreService.buildQuery "sentencias" 50 None)) in
  FirestoreService.nextCursor page = None
  <-> Z.of_nat (length (FirestoreService.data page)) < 50.
Proof.
  eapply (getPaged_nextCursor_none_iff_short
            (MemStore.serve (take 3 MemStore.sample)) "sentencias" 50 None []).
  - lia.
  - intros docs H. injection H as <-. vm_compute. discriminate.
  - reflexivity.
Defined.

Lemma getPaged_nextCursor_is_last_document_witness :
  let page :=
    FirestoreService.pageOf 50
      (MemStore.run MemStore.sample
         (FirestoreService.buildQuery "sentencias" 50 None)) in
  last (FirestoreService.data page)
    = Some (FirestoreService.toRow (MemStore.decision 49))
  /\ Z.of_nat (length (FirestoreService.data page)) = 50.
Proof.
  eapply (getPaged_nextCursor_is_last_document
            (MemStore.serve MemStore.sample) "sentencias" 50 None []).
  - reflexivity.
  - vm_compute. reflexivity.
Defined.

(** ** Queries built from the component state *)

Section BuildQuery.
Import FirestoreService.

Lemma onlyWhere_no_order cs :
  onlyWhere cs ->
  omap (fun c => match c with OrderBy f _ => Some f | _ => None end) cs = [].
Proof.
  induction 1 as [|c cs Hc _ IH]; [reflexivity|].
  destruct c; try discriminate. cbn. exact IH.
Qed.

Lemma onlyWhere_no_start cs :
  onlyWhere cs ->
  omap (fun c => match c with StartAfter s => Some s | _ => None end) cs = [].
Proof.
  induction 1 as [|c cs Hc _ IH]; [reflexivity|].
  destruct c; try discriminate. cbn. exact IH.
Qed.

Lemma buildQuery_constraints coll n f d sa cs :
  truthy f = true ->
  q_constraints
    (buildQuery coll n
       (Some {| orderByField := Some f; order := Some d;
                startAfterSnapshot := sa; constraints := Some cs |}))
  = cs ++ [OrderBy f d; Limit n]
       ++ match sa with Some c => [StartAfter c] | None => [] end.
Proof.
  intros Hf. unfold buildQuery. cbn. rewrite Hf.
  destruct cs as [|c cs]; destruct sa; cbn; rewrite <- ?app_assoc; reflexivity.
Qed.

Lemma buildQuery_order_by coll n f d sa cs :
  truthy f = true -> onlyWhere cs ->
  order_by_fields
    (buildQuery coll n
       (Some {| orderByField := Some f; order := Some d;
                startAfterSnapshot := sa; constraints := Some cs |}))
  = [f].
Proof.
  intros Hf Hcs. unfold order_by_fields.
  rewrite buildQuery_constraints by assumption.
  rewrite !omap_app, onlyWhere_no_order by assumption.
  destruct sa; reflexivity.
Qed.

Lemma buildQuery_start coll n f d sa cs :
  truthy f = true -> onlyWhere cs ->
  start_positions
    (buildQuery coll n
       (Some {| orderByField := Some f; order := Some d;
                startAfterSnapshot := sa; constraints := Some cs |}))
  = match sa with Some c => [c] | None => [] end.
Proof.
  intros Hf Hcs. unfold start_positions.
  rewrite buildQuery_constraints by assumption.
  rewrite !omap_app, onlyWhere_no_start by assumption.
  destruct sa; reflexivity.
Qed.

End BuildQuery.

(** ** String order and the prefix range *)

Section PrefixRange.

Lemma ascii_compare_refl (a : ascii) : Ascii.compare a a = Eq.
Proof. unfold Ascii.compare. apply N.compare_refl. Qed.

Lemma compare_append_common (p t u : string) :
  String.compare (p ++ t)%string (p ++ u)%string = String.compare t u.
Proof.
  induction p as [|a p IH]; [reflexivity|].
  change (String a p ++ t)%string with (String a (p ++ t)%string).
  change (String a p ++ u)%string with (String a (p ++ u)%string).
  cbn [String.compare]. rewrite ascii_compare_refl. exact IH.
Qed.

Lemma leb_append_common (p t u : string) :
  String.leb (p ++ t)%string (p ++ u)%string = String.leb t u.
Proof. unfold String.leb. rewrite compare_append_common. reflexivity. Qed.

Lemma append_empty_r (p : string) : (p ++ "")%string = p.
Proof.
  induction p as [|a p IH]; [reflexivity|].
  change (String a p ++ "")%string with (String a (p ++ "")%string).
  rewrite IH. reflexivity.
Qed.

Lemma leb_prefix (p t : string) : String.leb p (p ++ t)%string = true.
Proof.
  rewrite <- (append_empty_r p) at 1. rewrite leb_append_common.
  destruct t; reflexivity.
Qed.

(** A string whose first byte is below EF sorts before U+F8FF. *)
Lemma leb_low_first_byte (c : ascii) (r tail : string) :
  (N_of_ascii c < 239)%N ->
  String.leb (String c r) (String "239" tail) = true.
Proof.
  intros Hc. unfold String.leb. cbn [String.compare]. unfold Ascii.compare.
  change (N_of_ascii "239") with 239%N.
  destruct (N.compare_spec (N_of_ascii c) 239%N) as [He|Hl|Hg];
    try reflexivity; lia.
Qed.

End PrefixRange.

(** ** Facts about src/components/Table.tsx *)

Section TableFacts.
Import Table.
Variable store : Store.

Lemma constraints_onlyWhere s : onlyWhere (constraints s).
Proof.
  unfold constraints.
  repeat match goal with |- context [if ?b then _ else _] => destruct b end;
    repeat constructor.
Qed.

Lemma obField_truthy s : truthy (obField s) = true.
Proof.
  unfold obField.
  repeat match goal with |- context [if ?b then _ else _] => destruct b end;
    try reflexivity.
  destruct (orderByField s); reflexivity.
Qed.

Lemma pageQuery_constraints s sa :
  q_constraints (pageQuery s sa)
  = constraints s ++ [OrderBy (obField s) (order s); Limit PAGE_SIZE]
      ++ match sa with Some c => [StartAfter c] | None => [] end.
Proof. apply buildQuery_constraints, obField_truthy. Qed.

Lemma pageQuery_order_by s sa : order_by_fields (pageQuery s sa) = [obField s].
Proof.
  apply buildQuery_order_by; [apply obField_truthy|apply constraints_onlyWhere].
Qed.

Lemma pageQuery_start s sa :
  start_positions (pageQuery s sa)
  = match sa with Some c => [c] | None => [] end.
Proof.
  apply buildQuery_start; [apply obField_truthy|apply constraints_onlyWhere].
Qed.

Lemma pageQuery_identity s s' sa :
  identity s = identity s' -> pageQuery s sa = pageQuery s' sa.
Proof.
  destruct s, s'. unfold identity. cbn. intros H.
  injection H as -> -> -> -> -> ->. reflexivity.
Qed.

(** One fetch: one request, then either the page or the error. *)
Lemma fetchPage_unfold reset sa w :
  fetchPage store reset sa w =
  {| ui :=
       match store (pageQuery (ui w) sa) with
       | inr docs =>
           let page := FirestoreService.pageOf PAGE_SIZE docs in
           let s2 := setNextCursor (FirestoreService.nextCursor page)
                       (setRows (FirestoreService.data page)
                          (setErr None (setLoading true (ui w)))) in
           setLoading false
             (if reset then
                setCursorStack
                  (match sa with Some c => [c] | None => [] end) s2
              else s2)
       | inl e =>
           setLoading false
             (setErr (Some (errorMessage e))
                (setErr None (setLoading true (ui w))))
       end;
     sent := sent w ++ [pageQuery (ui w) sa] |}.
Proof.
  unfold fetchPage. rewrite getPaged_unfold. fold (pageQuery (ui w) sa).
  destruct (store (pageQuery (ui w) sa)); reflexivity.
Qed.

Lemma fetchPage_sent reset sa w :
  sent (fetchPage store reset sa w) = sent w ++ [pageQuery (ui w) sa].
Proof. rewrite fetchPage_unfold. reflexivity. Qed.

Lemma fetchPage_identity reset sa w :
  identity (ui (fetchPage store reset sa w)) = identity (ui w).
Proof.
  rewrite fetchPage_unfold. cbn [ui].
  destruct (store (pageQuery (ui w) sa)); destruct reset; reflexivity.
Qed.

Lemma fetchPage_ok reset sa w docs :
  store (pageQuery (ui w) sa) = inr docs ->
  rows (ui (fetchPage store reset sa w)) = map FirestoreService.toRow docs
  /\ nextCursor (ui (fetchPage store reset sa w))
     = FirestoreService.nextCursor (FirestoreService.pageOf PAGE_SIZE docs)
  /\ cursorStack (ui (fetchPage store reset sa w))
     = (if reset then match sa with Some c => [c] | None => [] end
        else cursorStack (ui w))
  /\ err (ui (fetchPage store reset sa w)) = None.
Proof.
  intros H. rewrite fetchPage_unfold, H. destruct reset; repeat split.
Qed.

Lemma fetchPage_failed reset sa w e :
  store (pageQuery (ui w) sa) = inl e ->
  session (ui (fetchPage store reset sa w)) = session (ui w)
  /\ err (ui (fetchPage store reset sa w)) = Some (errorMessage e).
Proof. intros H. rewrite fetchPage_unfold, H. split; reflexivity. Qed.

Lemma onNext_unfold w :
  onNext store w =
  match nextCursor (ui w) with
  | None => w
  | Some c =>
      fetchPage store false (Some c)
        {| ui := setCursorStack (cursorStack (ui w) ++ [c]) (ui w);
           sent := sent w |}
  end.
Proof. reflexivity. Qed.

Lemma onNext_identity w : identity (ui (onNext store w)) = identity (ui w).
Proof.
  rewrite onNext_unfold. destruct (nextCursor (ui w)); [|reflexivity].
  rewrite fetchPage_identity. reflexivity.
Qed.

Lemma onPrev_identity w : identity (ui (onPrev store w)) = identity (ui w).
Proof.
  unfold onPrev. destruct (length (cursorStack (ui w)) =? 0)%nat; [reflexivity|].
  cbn [ui]. rewrite <- (fetchPage_identity false (last (removelast (cursorStack (ui w)))) w).
  reflexivity.
Qed.

Lemma onNext_cursorStack w c :
  nextCursor (ui w) = Some c ->
  cursorStack (ui (onNext store w)) = cursorStack (ui w) ++ [c].
Proof.
  intros H. rewrite onNext_unfold, H, fetchPage_unfold. cbn [ui].
  match goal with |- context [store ?q] => destruct (store q) end; reflexivity.
Qed.

Lemma onPrev_cursorStack w :
  cursorStack (ui (onPrev store w)) = removelast (cursorStack (ui w)).
Proof.
  unfold onPrev. destruct (cursorStack (ui w)) eqn:E; cbn; [|reflexivity].
  rewrite E. reflexivity.
Qed.

Lemma iter_onNext_identity n w :
  identity (ui (Nat.iter n (onNext store) w)) = identity (ui w).
Proof.
  induction n as [|n IH]; [reflexivity|].
  rewrite Nat.iter_succ. rewrite onNext_identity. exact IH.
Qed.

Lemma iter_onPrev_identity n w :
  identity (ui (Nat.iter n (onPrev store) w)) = identity (ui w).
Proof.
  induction n as [|n IH]; [reflexivity|].
  rewrite Nat.iter_succ. rewrite onPrev_identity. exact IH.
Qed.

Lemma iter_onNext_length n w :
  (forall k, (k < n)%nat ->
     nextCursor (ui (Nat.iter k (onNext store) w)) <> None) ->
  length (cursorStack (ui (Nat.iter n (onNext store) w)))
  = (length (cursorStack (ui w)) + n)%nat.
Proof.
  induction n as [|n IH]; intros H; [cbn; lia|].
  rewrite Nat.iter_succ.
  destruct (nextCursor (ui (Nat.iter n (onNext store) w))) as [c|] eqn:Hc.
  - rewrite (onNext_cursorStack _ c Hc), length_app, IH; [cbn; lia|].
    intros k Hk. apply H. lia.
  - exfalso. apply (H n); [lia|exact Hc].
Qed.

Lemma iter_onPrev_length n w :
  length (cursorStack (ui (Nat.iter n (onPrev store) w)))
  = (length (cursorStack (ui w)) - n)%nat.
Proof.
  induction n as [|n IH]; [cbn; lia|].
  rewrite Nat.iter_succ. rewrite onPrev_cursorStack.
  destruct (cursorStack (ui (Nat.iter n (onPrev store) w))) as [|d l] eqn:E using rev_ind.
  - cbn in *. lia.
  - rewrite removelast_last. rewrite length_app in IH. cbn in IH. lia.
Qed.

(** Stepping back from a one-cursor stack re-fetches the first page. *)
Lemma onPrev_to_first_page w docs :
  length (cursorStack (ui w)) = 1%nat ->
  store (pageQuery (ui w) None) = inr docs ->
  rows (ui (onPrev store w)) = map FirestoreService.toRow docs
  /\ cursorStack (ui (onPrev store w)) = [].
Proof.
  intros Hlen Hstore. unfold onPrev.
  destruct (cursorStack (ui w)) as [|c [|c' l]] eqn:E; try discriminate.
  cbn [length Nat.eqb removelast last ui].
  destruct (fetchPage_ok false None w docs Hstore) as (Hrows & _).
  rewrite <- Hrows. split; reflexivity.
Qed.

(** Pages forward then as many pages back: the first page again. *)
Lemma next_previous_first_page w0 docs n :
  store (pageQuery (ui w0) None) = inr docs ->
  (forall k, (k < n)%nat ->
     nextCursor (ui (Nat.iter k (onNext store) (fetchPage store true None w0)))
     <> None) ->
  rows (ui (Nat.iter n (onPrev store)
             (Nat.iter n (onNext store) (fetchPage store true None w0))))
  = rows (ui (fetchPage store true None w0)).
Proof.
  intros Hstore Hnext.
  destruct (fetchPage_ok true None w0 docs Hstore) as (Hrows & _ & Hstack & _).
  set (w1 := fetchPage store true None w0) in *.
  destruct n as [|n]; [reflexivity|].
  set (wn := Nat.iter (S n) (onNext store) w1).
  assert (Hlen : length (cursorStack (ui wn)) = S n).
  { subst wn. rewrite iter_onNext_length by exact Hnext. rewrite Hstack. reflexivity. }
  rewrite Nat.iter_succ. rewrite Hrows.
  apply onPrev_to_first_page.
  - rewrite iter_onPrev_length, Hlen. lia.
  - rewrite <- Hstore. f_equal. apply pageQuery_identity.
    rewrite iter_onPrev_identity. subst wn.
    rewrite iter_onNext_identity. subst w1. apply fetchPage_identity.
Qed.

End TableFacts.

(** ** Facts about the second version of the component *)

Section Table2Facts.
Import Table2.
Variable store : Store.

Lemma constraints_onlyWhere_v2 s : onlyWhere (constraints s).
Proof.
  unfold constraints.
  repeat match goal with |- context [if ?b then _ else _] => destruct b end;
    repeat constructor.
Qed.

Lemma obField_truthy_v2 s : truthy (obField s) = true.
Proof.
  unfold obField.
  repeat match goal with |- context [if ?b then _ else _] => destruct b end;
    try reflexivity.
  destruct (orderByField s); reflexivity.
Qed.

Lemma pageQuery_constraints_v2 s sa :
  q_constraints (pageQuery s sa)
  = constraints s ++ [OrderBy (obField s) (order s); Limit PAGE_SIZE]
      ++ match sa with Some c => [StartAfter c] | None => [] end.
Proof. apply buildQuery_constraints, obField_truthy_v2. Qed.

Lemma pageQuery_order_by_v2 s sa : order_by_fields (pageQuery s sa) = [obField s].
Proof.
  apply buildQuery_order_by; [apply obField_truthy_v2|apply constraints_onlyWhere_v2].
Qed.

Lemma pageQuery_start_v2 s sa :
  start_positions (pageQuery s sa)
  = match sa with Some c => [c] | None => [] end.
Proof.
  apply buildQuery_start; [apply obField_truthy_v2|apply constraints_onlyWhere_v2].
Qed.

Lemma pageQuery_identity_v2 s s' sa :
  queryInputs s = queryInputs s' -> pageQuery s sa = pageQuery s' sa.
Proof.
  destruct s, s'. unfold queryInputs. cbn. intros H.
  injection H as -> -> -> -> -> ->. reflexivity.
Qed.

(** One fetch: one request, then either the page or the error. *)
Lemma fetchPage_unfold_v2 reset sa w :
  fetchPage store reset sa w =
  {| ui :=
       match store (pageQuery (ui w) sa) with
       | inr docs =>
           let page := FirestoreService.pageOf PAGE_SIZE docs in
           let s2 := setNextCursor (FirestoreService.nextCursor page)
                       (setRows (FirestoreService.data page)
                          (setErr None (setLoading true (ui w)))) in
           setLoading false
             (if reset then
                setCursorStack
                  (match sa with Some c => [c] | None => [] end) s2
              else s2)
       | inl e =>
           setLoading false
             (setErr (Some (errorMessage e))
                (setErr None (setLoading true (ui w))))
       end;
     sent := sent w ++ [pageQuery (ui w) sa] |}.
Proof.
  unfold fetchPage. rewrite getPaged_unfold. fold (pageQuery (ui w) sa).
  destruct (store (pageQuery (ui w) sa)); reflexivity.
Qed.

Lemma fetchPage_sent_v2 reset sa w :
  sent (fetchPage store reset sa w) = sent w ++ [pageQuery (ui w) sa].
Proof. rewrite fetchPage_unfold_v2. reflexivity. Qed.

Lemma fetchPage_identity_v2 reset sa w :
  queryInputs (ui (fetchPage store reset sa w)) = queryInputs (ui w).
Proof.
  rewrite fetchPage_unfold_v2. cbn [ui].
  destruct (store (pageQuery (ui w) sa)); destruct reset; reflexivity.
Qed.

Lemma fetchPage_ok_v2 reset sa w docs :
  store (pageQuery (ui w) sa) = inr docs ->
  rows (ui (fetchPage store reset sa w)) = map FirestoreService.toRow docs
  /\ nextCursor (ui (fetchPage store reset sa w))
     = FirestoreService.nextCursor (FirestoreService.pageOf PAGE_SIZE docs)
  /\ cursorStack (ui (fetchPage store reset sa w))
     = (if reset then match sa with Some c => [c] | None => [] end
        else cursorStack (ui w))
  /\ err (ui (fetchPage store reset sa w)) = None.
Proof.
  intros H. rewrite fetchPage_unfold_v2, H. destruct reset; repeat split.
Qed.

Lemma fetchPage_failed_v2 reset sa w e :
  store (pageQuery (ui w) sa) = inl e ->
  session (ui (fetchPage store reset sa w)) = session (ui w)
  /\ err (ui (fetchPage store reset sa w)) = Some (errorMessage e).
Proof. intros H. rewrite fetchPage_unfold_v2, H. split; reflexivity. Qed.

Lemma onNext_unfold_v2 w :
  onNext store w =
  match nextCursor (ui w) with
  | None => w
  | Some c =>
      fetchPage store false (Some c)
        {| ui := setCursorStack (cursorStack (ui w) ++ [c]) (ui w);
           sent := sent w |}
  end.
Proof. reflexivity. Qed.

Lemma onNext_identity_v2 w : queryInputs (ui (onNext store w)) = queryInputs (ui w).
Proof.
  rewrite onNext_unfold_v2. destruct (nextCursor (ui w)); [|reflexivity].
  rewrite fetchPage_identity_v2. reflexivity.
Qed.

Lemma onPrev_identity_v2 w : queryInputs (ui (onPrev store w)) = queryInputs (ui w).
Proof.
  unfold onPrev. destruct (length (cursorStack (ui w)) =? 0)%nat; [reflexivity|].
  cbn [ui]. rewrite <- (fetchPage_identity_v2 false (last (removelast (cursorStack (ui w)))) w).
  reflexivity.
Qed.

Lemma onNext_cursorStack_v2 w c :
  nextCursor (ui w) = Some c ->
  cursorStack (ui (onNext store w)) = cursorStack (ui w) ++ [c].
Proof.
  intros H. rewrite onNext_unfold_v2, H, fetchPage_unfold_v2. cbn [ui].
  match goal with |- context [store ?q] => destruct (store q) end; reflexivity.
Qed.

Lemma onPrev_cursorStack_v2 w :
  cursorStack (ui (onPrev store w)) = removelast (cursorStack (ui w)).
Proof.
  unfold onPrev. destruct (cursorStack (ui w)) eqn:E; cbn; [|reflexivity].
  rewrite E. reflexivity.
Qed.

Lemma iter_onNext_identity_v2 n w :
  queryInputs (ui (Nat.iter n (onNext store) w)) = queryInputs (ui w).
Proof.
  induction n as [|n IH]; [reflexivity|].
  rewrite Nat.iter_succ. rewrite onNext_identity_v2. exact IH.
Qed.

Lemma iter_onPrev_identity_v2 n w :
  queryInputs (ui (Nat.iter n (onPrev store) w)) = queryInputs (ui w).
Proof.
  induction n as [|n IH]; [reflexivity|].
  rewrite Nat.iter_succ. rewrite onPrev_identity_v2. exact IH.
Qed.

Lemma iter_onNext_length_v2 n w :
  (forall k, (k < n)%nat ->
     nextCursor (ui (Nat.iter k (onNext store) w)) <> None) ->
  length (cursorStack (ui (Nat.iter n (onNext store) w)))
  = (length (cursorStack (ui w)) + n)%nat.
Proof.
  induction n as [|n IH]; intros H; [cbn; lia|].
  rewrite Nat.iter_succ.
  destruct (nextCursor (ui (Nat.iter n (onNext store) w))) as [c|] eqn:Hc.
  - rewrite (onNext_cursorStack_v2 _ c Hc), length_app, IH; [cbn; lia|].
    intros k Hk. apply H. lia.
  - exfalso. apply (H n); [lia|exact Hc].
Qed.

Lemma iter_onPrev_length_v2 n w :
  length (cursorStack (ui (Nat.iter n (onPrev store) w)))
  = (length (cursorStack (ui w)) - n)%nat.
Proof.
  induction n as [|n IH]; [cbn; lia|].
  rewrite Nat.iter_succ. rewrite onPrev_cursorStack_v2.
  destruct (cursorStack (ui (Nat.iter n (onPrev store) w))) as [|d l] eqn:E using rev_ind.
  - cbn in *. lia.
  - rewrite removelast_last. rewrite length_app in IH. cbn in IH. lia.
Qed.

(** Stepping back from a one-cursor stack re-fetches the first page. *)
Lemma onPrev_to_first_page_v2 w docs :
  length (cursorStack (ui w)) = 1%nat ->
  store (pageQuery (ui w) None) = inr docs ->
  rows (ui (onPrev store w)) = map FirestoreService.toRow docs
  /\ cursorStack (ui (onPrev store w)) = [].
Proof.
  intros Hlen Hstore. unfold onPrev.
  destruct (cursorStack (ui w)) as [|c [|c' l]] eqn:E; try discriminate.
  cbn [length Nat.eqb removelast last ui].
  destruct (fetchPage_ok_v2 false None w docs Hstore) as (Hrows & _).
  rewrite <- Hrows. split; reflexivity.
Qed.

(** Pages forward then as many pages back: the first page again. *)
Lemma next_previous_first_page_v2 w0 docs n :
  store (pageQuery (ui w0) None) = inr docs ->
  (forall k, (k < n)%nat ->
     nextCursor (ui (Nat.iter k (onNext store) (fetchPage store true None w0)))
     <> None) ->
  rows (ui (Nat.iter n (onPrev store)
             (Nat.iter n (onNext store) (fetchPage store true None w0))))
  = rows (ui (fetchPage store true None w0)).
Proof.
  intros Hstore Hnext.
  destruct (fetchPage_ok_v2 true None w0 docs Hstore) as (Hrows & _ & Hstack & _).
  set (w1 := fetchPage store true None w0) in *.
  destruct n as [|n]; [reflexivity|].
  set (wn := Nat.iter (S n) (onNext store) w1).
  assert (Hlen : length (cursorStack (ui wn)) = S n).
  { subst wn. rewrite iter_onNext_length_v2 by exact Hnext. rewrite Hstack. reflexivity. }
  rewrite Nat.iter_succ. rewrite Hrows.
  apply onPrev_to_first_page_v2.
  - rewrite iter_onPrev_length_v2, Hlen. lia.
  - rewrite <- Hstore. f_equal. apply pageQuery_identity_v2.
    rewrite iter_onPrev_identity_v2. subst wn.
    rewrite iter_onNext_identity_v2. subst w1. apply fetchPage_identity_v2.
Qed.

End Table2Facts.

(** ** The query builder *)

Section QueryBuilder.

Lemma prefixActive_obField (s : Table.State) :
  Table.prefixActive s -> Table.obField s = "expediente".
Proof.
  intros [Ht _]. unfold Table.obField, Table.filter_is. rewrite Ht. reflexivity.
Qed.

Lemma prefixActive_obField_v2 (s : Table2.State) :
  Table2.prefixActive s -> Table2.obField s = "exp".
Proof.
  unfold Table2.prefixActive, Table2.obField.
  destruct (Table2.expPrefix s); [congruence|reflexivity].
Qed.

Lemma truthy_nonempty (x : string) : x <> "" -> truthy x = true.
Proof. destruct x; [congruence|reflexivity]. Qed.

Lemma handle_sent (store : Store) (ev : Table.Event) (w : Table.World) :
  exists startAfters,
    Table.sent (Table.handle store ev w)
    = Table.sent w
        ++ map (Table.pageQuery (Table.update ev (Table.ui w))) startAfters.
Proof.
  destruct ev; cbn [Table.handle Table.update];
    try (match goal with
         | |- context [if ?b then _ else _] => destruct b
         end;
         [ exists [None]; rewrite fetchPage_sent; reflexivity
         | exists []; cbn; rewrite app_nil_r; reflexivity ]).
  - exists [None]. rewrite fetchPage_sent. reflexivity.
  - unfold Table.onPrev.
    destruct (length (Table.cursorStack (Table.ui w)) =? 0)%nat.
    + exists []. cbn. rewrite app_nil_r. reflexivity.
    + eexists [_]. cbn [Table.sent]. rewrite fetchPage_sent. reflexivity.
  - rewrite onNext_unfold. destruct (Table.nextCursor (Table.ui w)) as [c|].
    + exists [Some c]. rewrite fetchPage_sent. reflexivity.
    + exists []. cbn. rewrite app_nil_r. reflexivity.
Qed.

Lemma handle_sent_v2 (store : Store) (ev : Table2.Event) (w : Table2.World) :
  exists startAfters,
    Table2.sent (Table2.handle store ev w)
    = Table2.sent w
        ++ map (Table2.pageQuery (Table2.update ev (Table2.ui w))) startAfters.
Proof.
  destruct ev; cbn [Table2.handle Table2.update];
    try (match goal with
         | |- context [if ?b then _ else _] => destruct b
         end;
         [ exists [None]; rewrite fetchPage_sent_v2; reflexivity
         | exists []; cbn; rewrite app_nil_r; reflexivity ]).
  - unfold Table2.onPrev.
    destruct (length (Table2.cursorStack (Table2.ui w)) =? 0)%nat.
    + exists []. cbn. rewrite app_nil_r. reflexivity.
    + eexists [_]. cbn [Table2.sent]. rewrite fetchPage_sent_v2. reflexivity.
  - rewrite onNext_unfold_v2. destruct (Table2.nextCursor (Table2.ui w)) as [c|].
    + exists [Some c]. rewrite fetchPage_sent_v2. reflexivity.
    + exists []. cbn. rewrite app_nil_r. reflexivity.
Qed.

(** C4. While the expediente prefix filter is active, every query a
    control of the page sends is ordered by the expediente field,
    whatever sort field the state holds. *)
Theorem prefix_filter_pins_order_by
    (store : Store) (ev1 : Table.Event) (w1 : Table.World)
    (ev2 : Table2.Event) (w2 : Table2.World) :
  Table.prefixActive (Table.update ev1 (Table.ui w1)) ->
  Table2.prefixActive (Table2.update ev2 (Table2.ui w2)) ->
  (exists new,
      Table.sent (Table.handle store ev1 w1) = Table.sent w1 ++ new
      /\ Forall (fun q => order_by_fields q = ["expediente"]) new)
  /\ (exists new,
      Table2.sent (Table2.handle store ev2 w2) = Table2.sent w2 ++ new
      /\ Forall (fun q => order_by_fields q = ["exp"]) new).
Proof.
  intros H1 H2. split.
  - destruct (handle_sent store ev1 w1) as [sas Hs].
    eexists. split; [exact Hs|]. apply Forall_forall. intros q Hq.
    apply list_elem_of_In, in_map_iff in Hq. destruct Hq as (sa & <- & _).
    rewrite pageQuery_order_by, prefixActive_obField by assumption. reflexivity.
  - destruct (handle_sent_v2 store ev2 w2) as [sas Hs].
    eexists. split; [exact Hs|]. apply Forall_forall. intros q Hq.
    apply list_elem_of_In, in_map_iff in Hq. destruct Hq as (sa & <- & _).
    rewrite pageQuery_order_by_v2, prefixActive_obField_v2 by assumption.
    reflexivity.
Qed.

(** C8. A blank input emits no predicate: with the selected filter's
    input empty the first builder returns the empty list, and the
    second builder emits nothing on the field of a filter whose input
    is empty. *)
Theorem blank_input_emits_no_predicate
    (s1 : Table.State) (s2 : Table2.State) (k : Table2.Filter) :
  Table.activeInput s1 = "" ->
  Table2.input k s2 = "" ->
  Table.constraints s1 = []
  /\ predicatesOn (Table2.filterField k) (Table2.constraints s2) = [].
Proof.
  intros H1 H2. split.
  - unfold Table.activeInput in H1. unfold Table.constraints, Table.filter_is.
    destruct (Table.activeFilterType s1) as [[]|]; rewrite ?H1; reflexivity.
  - unfold Table2.constraints.
    destruct k; cbn [Table2.input Table2.filterField] in *; rewrite H2;
      cbn [truthy];
      repeat match goal with
             | |- context [if truthy ?x then _ else _] => destruct (truthy x)
             end; reflexivity.
Qed.

Lemma all_blank_no_predicate_v2 (s : Table2.State) :
  (forall k, Table2.input k s = "") -> Table2.constraints s = [].
Proof.
  intros H. unfold Table2.constraints.
  rewrite (H Table2.ByYear : Table2.year s = ""),
          (H Table2.BySala : Table2.salaNum s = ""),
          (H Table2.ByMonth : Table2.monthFilter s = ""),
          (H Table2.ByExpediente : Table2.expPrefix s = "").
  reflexivity.
Qed.

End QueryBuilder.

Lemma prefix_filter_pins_order_by_witness :
  let store := MemStore.serve MemStore.sample in
  let w1 := {| Table.ui :=
                 Table.setExpPrefix "2009"
                   (Table.setActiveFilterType (Some Table.TExp) Table.initial);
               Table.sent := [] |} in
  let w2 := {| Table2.ui := Table2.setExpPrefix "2009" Table2.initial;
               Table2.sent := [] |} in
  (exists new,
      Table.sent (Table.handle store Table.ClickAplicar w1) = Table.sent w1 ++ new
      /\ Forall (fun q => order_by_fields q = ["expediente"]) new)
  /\ (exists new,
      Table2.sent (Table2.handle store Table2.ToggleOrder w2) = Table2.sent w2 ++ new
      /\ Forall (fun q => order_by_fields q = ["exp"]) new).
Proof.
  apply prefix_filter_pins_order_by.
  - split; [reflexivity|discriminate].
  - discriminate.
Defined.

Lemma blank_input_emits_no_predicate_witness :
  let s1 := Table.setActiveFilterType (Some Table.TYear) Table.initial in
  let s2 := Table2.setSalaNum "2" Table2.initial in
  Table.constraints s1 = []
  /\ predicatesOn "year" (Table2.constraints s2) = [].
Proof.
  apply (blank_input_emits_no_predicate
           (Table.setActiveFilterType (Some Table.TYear) Table.initial)
           (Table2.setSalaNum "2" Table2.initial) Table2.ByYear);
    reflexivity.
Defined.

Section PrefixPredicates.

(** C7 (amended). For an active prefix filter with prefix p the builder
    emits exactly the two predicates f >= p and f <= p + U+F8FF.  A
    stored string p + t passes the first one always and the second one
    exactly when t sorts at or before U+F8FF, which is the case when t
    is empty or starts with a byte below EF (any character below
    U+F000). *)
Theorem prefix_range_predicates (s1 : Table.State) (s2 : Table2.State) :
  Table.prefixActive s1 ->
  Table2.prefixActive s2 ->
  Table.constraints s1
  = [ Where "expediente" OpGe (OString (Table.expPrefix s1));
      Where "expediente" OpLe
        (OString (Table.expPrefix s1 ++ Table.uf8ff)%string) ]
  /\ predicatesOn "exp" (Table2.constraints s2)
     = [ Where "exp" OpGe (OString (Table2.expPrefix s2));
         Where "exp" OpLe
           (OString (Table2.expPrefix s2 ++ Table2.uf8ff)%string) ]
  /\ (forall f p t,
         holds_on (Where f OpGe (OString p)) (p ++ t)%string = true
         /\ holds_on (Where f OpLe (OString (p ++ Table.uf8ff)%string))
              (p ++ t)%string
            = String.leb t Table.uf8ff)
  /\ (forall c r, (N_of_ascii c < 239)%N ->
                  String.leb "" Table.uf8ff = true
                  /\ String.leb (String c r) Table.uf8ff = true).
Proof.
  intros [Ht Hp] Hp2. repeat split.
  - unfold Table.constraints, Table.filter_is. rewrite Ht.
    rewrite (truthy_nonempty _ Hp). reflexivity.
  - unfold Table2.constraints. rewrite (truthy_nonempty _ Hp2).
    repeat match goal with
           | |- context [if truthy ?x then _ else _] => destruct (truthy x)
           end; reflexivity.
  - cbn [holds_on string_op_holds]. apply leb_prefix.
  - cbn [holds_on string_op_holds]. apply leb_append_common.
  - apply leb_low_first_byte. assumption.
Qed.

End PrefixPredicates.

Lemma prefix_range_predicates_witness :
  let s1 := Table.setExpPrefix "2009"
              (Table.setActiveFilterType (Some Table.TExp) Table.initial) in
  let s2 := Table2.setExpPrefix "2009" (Table2.setYear "2009" Table2.initial) in
  Table.constraints s1
  = [ Where "expediente" OpGe (OString "2009");
      Where "expediente" OpLe (OString ("2009" ++ Table.uf8ff)%string) ]
  /\ predicatesOn "exp" (Table2.constraints s2)
     = [ Where "exp" OpGe (OString "2009");
         Where "exp" OpLe (OString ("2009" ++ Table2.uf8ff)%string) ].
Proof.
  pose proof (prefix_range_predicates
                (Table.setExpPrefix "2009"
                   (Table.setActiveFilterType (Some Table.TExp) Table.initial))
                (Table2.setExpPrefix "2009" (Table2.setYear "2009" Table2.initial)))
    as H.
  destruct H as (H1 & H2 & _).
  - split; [reflexivity|discriminate].
  - discriminate.
  - split; [exact H1|exact H2].
Defined.

(** C7, as stated, fails: a stored string that begins with the prefix
    and continues with a character above U+F8FF is rejected by the upper
    predicate. *)
Lemma prefix_range_rejects_high_suffix :
  let s := Table.setExpPrefix "2009"
             (Table.setActiveFilterType (Some Table.TExp) Table.initial) in
  let stored := ("2009" ++ ufffd)%string in
  Table.prefixActive s
  /\ String.prefix "2009" stored = true
  /\ Exists (fun c => holds_on c stored = false) (Table.constraints s).
Proof.
  repeat split.
  - discriminate.
  - apply Exists_cons_tl, Exists_cons_hd. reflexivity.
Qed.

Section ErrorReason.

(** C10. After a failed fetch the error shown is the message of the
    thrown [Error], or "Error cargando datos" when the thrown value is
    not an [Error]. *)
Theorem failed_fetch_error_message
    (store1 store2 : Store) (reset : bool) (sa : option DocumentSnapshot)
    (w1 : Table.World) (w2 : Table2.World) (e1 e2 : Thrown) :
  store1 (Table.pageQuery (Table.ui w1) sa) = inl e1 ->
  store2 (Table2.pageQuery (Table2.ui w2) sa) = inl e2 ->
  Table.err (Table.ui (Table.fetchPage store1 reset sa w1))
  = Some (match e1 with
          | ErrorInstance message => message
          | NotAnError => "Error cargando datos"
          end)
  /\ Table2.err (Table2.ui (Table2.fetchPage store2 reset sa w2))
     = Some (match e2 with
             | ErrorInstance message => message
             | NotAnError => "Error cargando datos"
             end).
Proof.
  intros H1 H2. split.
  - destruct (fetchPage_failed store1 reset sa w1 e1 H1) as [_ ->].
    destruct e1; reflexivity.
  - destruct (fetchPage_failed_v2 store2 reset sa w2 e2 H2) as [_ ->].
    destruct e2; reflexivity.
Qed.

End ErrorReason.

Lemma failed_fetch_error_message_witness :
  let down1 := MemStore.serveUnless (fun _ => true) (ErrorInstance "unavailable") [] in
  let down2 := MemStore.serveUnless (fun _ => true) NotAnError [] in
  Table.err (Table.ui (Table.fetchPage down1 true None
                         {| Table.ui := Table.initial; Table.sent := [] |}))
  = Some "unavailable"
  /\ Table2.err (Table2.ui (Table2.fetchPage down2 true None
                              {| Table2.ui := Table2.initial; Table2.sent := [] |}))
     = Some "Error cargando datos".
Proof.
  apply (failed_fetch_error_message
           (MemStore.serveUnless (fun _ => true) (ErrorInstance "unavailable") [])
           (MemStore.serveUnless (fun _ => true) NotAnError [])
           true None
           {| Table.ui := Table.initial; Table.sent := [] |}
           {| Table2.ui := Table2.initial; Table2.sent := [] |}
           (ErrorInstance "unavailable") NotAnError);
    reflexivity.
Defined.

(** ** Filter selection *)

Section FilterSelection.
Import Table.
Variable store : Store.

Lemma othersBlank_identity s s' :
  identity s = identity s' -> othersBlank s -> othersBlank s'.
Proof.
  unfold identity, othersBlank. intros H. injection H as _ _ -> -> -> ->.
  tauto.
Qed.

Lemma othersBlank_filled s : othersBlank s -> (filledInputs s <= 1)%nat.
Proof.
  unfold othersBlank, filledInputs. intros (Hy & Hs & He).
  destruct (activeFilterType s) as [[]|];
    repeat match goal with
           | H : _ <> _ -> _ |- _ =>
               first [ specialize (H ltac:(discriminate)) | clear H ]
           end;
    repeat match goal with
           | H : _ = "" |- _ => rewrite H; clear H
           end;
    cbn [truthy Nat.b2n];
    repeat match goal with
           | |- context [truthy ?x] => destruct (truthy x)
           end; cbn; lia.
Qed.

Lemma handle_identity ev w :
  identity (ui (handle store ev w)) = identity (update ev (ui w)).
Proof.
  destruct ev; cbn [handle update];
    try (match goal with
         | |- context [if ?b then _ else _] => destruct b
         end; [apply fetchPage_identity|reflexivity]).
  - apply fetchPage_identity.
  - apply onPrev_identity.
  - apply onNext_identity.
Qed.

Lemma update_othersBlank ev s :
  enabled ev s = true -> othersBlank s -> othersBlank (update ev s).
Proof.
  unfold othersBlank, enabled, filter_is.
  destruct ev; cbn; intros He H; try exact H;
    try (apply bool_decide_eq_true in He; rewrite He in *);
    intuition congruence.
Qed.

Lemma reachable_othersBlank w : reachable store w -> othersBlank (ui w).
Proof.
  induction 1 as [|ev w Hw IH He].
  - apply (othersBlank_identity initial).
    + symmetry. apply fetchPage_identity.
    + repeat split.
  - apply (othersBlank_identity (update ev (ui w))).
    + symmetry. apply handle_identity.
    + apply update_othersBlank; assumption.
Qed.

(** C3 (amended). In src/components/Table.tsx every reachable state has
    at most one of the inputs year, sala number and expediente prefix
    filled in, and selecting a filter clears the inputs of the other
    two. *)
Theorem filter_inputs_exclusive (w : World) :
  reachable store w ->
  (filledInputs (ui w) <= 1)%nat
  /\ (salaNum (ui (handle store ClickYear w)) = ""
      /\ expPrefix (ui (handle store ClickYear w)) = "")
  /\ (year (ui (handle store ClickSala w)) = ""
      /\ expPrefix (ui (handle store ClickSala w)) = "")
  /\ (year (ui (handle store ClickExpediente w)) = ""
      /\ salaNum (ui (handle store ClickExpediente w)) = "").
Proof.
  intros Hw. split.
  - apply othersBlank_filled, reachable_othersBlank, Hw.
  - pose proof (handle_identity ClickYear w) as Hy.
    pose proof (handle_identity ClickSala w) as Hs.
    pose proof (handle_identity ClickExpediente w) as He.
    unfold identity in Hy, Hs, He. cbn in Hy, Hs, He.
    injection Hy as _ _ _ _ Hy1 Hy2.
    injection Hs as _ _ _ Hs1 _ Hs2.
    injection He as _ _ _ He1 He2 _.
    repeat split; assumption.
Qed.

End FilterSelection.

Lemma filter_inputs_exclusive_witness :
  let store := MemStore.serve MemStore.sample in
  let w := Table.handle store (Table.ChangeYear "2009")
             (Table.handle store Table.ClickYear (Table.mount store)) in
  (Table.filledInputs (Table.ui w) <= 1)%nat
  /\ (Table.salaNum (Table.ui (Table.handle store Table.ClickYear w)) = ""
      /\ Table.expPrefix (Table.ui (Table.handle store Table.ClickYear w)) = "")
  /\ (Table.year (Table.ui (Table.handle store Table.ClickSala w)) = ""
      /\ Table.expPrefix (Table.ui (Table.handle store Table.ClickSala w)) = "")
  /\ (Table.year (Table.ui (Table.handle store Table.ClickExpediente w)) = ""
      /\ Table.salaNum (Table.ui (Table.handle store Table.ClickExpediente w)) = "").
Proof.
  apply filter_inputs_exclusive.
  apply Table.reach_event; [apply Table.reach_event; [apply Table.reach_mount|]|];
    vm_compute; reflexivity.
Defined.

(** C3, as stated, fails on the second version of the component: its
    inputs are independent, and typing a year then choosing a sala leaves
    both filled in. *)
Lemma filter_inputs_not_exclusive_v2 :
  let store := MemStore.serve MemStore.sample in
  let w := Table2.handle store (Table2.ChangeSalaNum "2")
             (Table2.handle store (Table2.ChangeYear "2009")
                (Table2.mount store)) in
  Table2.reachable store w
  /\ Table2.year (Table2.ui w) = "2009"
  /\ Table2.salaNum (Table2.ui w) = "2"
  /\ ~ (Table2.filledInputs (Table2.ui w) <= 1)%nat.
Proof.
  repeat split.
  - apply Table2.reach_event;
      [apply Table2.reach_event; [apply Table2.reach_mount|]|];
      vm_compute; reflexivity.
  - vm_compute. lia.
Qed.

(** ** Reset on a change of the query *)

Section Reset.
Variable store : Store.

Lemma depsChanged_same s : Table.depsChanged s s = false.
Proof. unfold Table.depsChanged. rewrite bool_decide_eq_true_2; reflexivity. Qed.

Lemma depsChanged_same_v2 s : Table2.depsChanged s s = false.
Proof. unfold Table2.depsChanged. rewrite bool_decide_eq_true_2; reflexivity. Qed.

Lemma handle_reset ev w :
  Table.depsChanged (Table.ui w) (Table.update ev (Table.ui w)) = true ->
  Table.handle store ev w
  = Table.fetchPage store true None
      {| Table.ui := Table.update ev (Table.ui w); Table.sent := Table.sent w |}.
Proof.
  intros H.
  destruct ev; cbn [Table.handle Table.update Table.ui] in *;
    try (rewrite H; reflexivity);
    rewrite depsChanged_same in H; discriminate.
Qed.

Lemma handle_reset_v2 ev w :
  Table2.depsChanged (Table2.ui w) (Table2.update ev (Table2.ui w)) = true ->
  Table2.handle store ev w
  = Table2.fetchPage store true None
      {| Table2.ui := Table2.update ev (Table2.ui w);
         Table2.sent := Table2.sent w |}.
Proof.
  intros H.
  destruct ev; cbn [Table2.handle Table2.update Table2.ui] in *;
    try (rewrite H; reflexivity);
    rewrite depsChanged_same_v2 in H; discriminate.
Qed.

Lemma update_cursorStack ev s :
  Table.cursorStack (Table.update ev s) = Table.cursorStack s.
Proof. destruct ev; reflexivity. Qed.

Lemma update_cursorStack_v2 ev s :
  Table2.cursorStack (Table2.update ev s) = Table2.cursorStack s.
Proof. destruct ev; reflexivity. Qed.

(** C6 (amended). When a control changes a filter input, the selected
    filter or the sort direction, one query is sent, without a
    start-after position; if it succeeds the cursor stack is emptied
    and the rows are its result, the first page; if it fails the cursor
    stack, the rows and the next cursor are left as they were.  The
    page size is a constant. *)
Theorem query_change_refetches_first_page
    (ev1 : Table.Event) (w1 : Table.World)
    (ev2 : Table2.Event) (w2 : Table2.World) :
  Table.depsChanged (Table.ui w1) (Table.update ev1 (Table.ui w1)) = true ->
  Table2.depsChanged (Table2.ui w2) (Table2.update ev2 (Table2.ui w2)) = true ->
  (let q := Table.pageQuery (Table.update ev1 (Table.ui w1)) None in
   let w' := Table.handle store ev1 w1 in
   Table.sent w' = Table.sent w1 ++ [q]
   /\ start_positions q = []
   /\ (forall docs, store q = inr docs ->
         Table.cursorStack (Table.ui w') = []
         /\ Table.rows (Table.ui w') = map FirestoreService.toRow docs)
   /\ (forall e, store q = inl e ->
         Table.cursorStack (Table.ui w') = Table.cursorStack (Table.ui w1)
         /\ Table.rows (Table.ui w') = Table.rows (Table.ui w1)
         /\ Table.nextCursor (Table.ui w') = Table.nextCursor (Table.ui w1)))
  /\ (let q := Table2.pageQuery (Table2.update ev2 (Table2.ui w2)) None in
      let w' := Table2.handle store ev2 w2 in
      Table2.sent w' = Table2.sent w2 ++ [q]
      /\ start_positions q = []
      /\ (forall docs, store q = inr docs ->
            Table2.cursorStack (Table2.ui w') = []
            /\ Table2.rows (Table2.ui w') = map FirestoreService.toRow docs)
      /\ (forall e, store q = inl e ->
            Table2.cursorStack (Table2.ui w') = Table2.cursorStack (Table2.ui w2)
            /\ Table2.rows (Table2.ui w') = Table2.rows (Table2.ui w2)
            /\ Table2.nextCursor (Table2.ui w')
               = Table2.nextCursor (Table2.ui w2))).
Proof.
  intros H1 H2. split; cbv zeta.
  - rewrite (handle_reset _ _ H1). split; [apply fetchPage_sent|].
    split; [apply pageQuery_start|]. split.
    + intros docs Hq.
      destruct (fetchPage_ok store true None
                  {| Table.ui := Table.update ev1 (Table.ui w1);
                     Table.sent := Table.sent w1 |} docs Hq)
        as (Hrows & _ & Hstack & _).
      split; assumption.
    + intros e Hq.
      destruct (fetchPage_failed store true None
                  {| Table.ui := Table.update ev1 (Table.ui w1);
                     Table.sent := Table.sent w1 |} e Hq) as [Hs _].
      injection Hs as Hs Hr Hn. rewrite Hs, Hr, Hn. cbn [Table.ui].
    destruct ev1; repeat split.
  - rewrite (handle_reset_v2 _ _ H2). split; [apply fetchPage_sent_v2|].
    split; [apply pageQuery_start_v2|]. split.
    + intros docs Hq.
      destruct (fetchPage_ok_v2 store true None
                  {| Table2.ui := Table2.update ev2 (Table2.ui w2);
                     Table2.sent := Table2.sent w2 |} docs Hq)
        as (Hrows & _ & Hstack & _).
      split; assumption.
    + intros e Hq.
      destruct (fetchPage_failed_v2 store true None
                  {| Table2.ui := Table2.update ev2 (Table2.ui w2);
                     Table2.sent := Table2.sent w2 |} e Hq) as [Hs _].
      injection Hs as Hs Hr Hn. rewrite Hs, Hr, Hn. cbn [Table2.ui].
    destruct ev2; repeat split.
Qed.

End Reset.

Lemma query_change_refetches_first_page_witness :
  let store := MemStore.serve MemStore.sample in
  let w1 := Table.onNext store (Table.mount store) in
  let w2 := Table2.onNext store (Table2.mount store) in
  (Table.cursorStack (Table.ui w1) <> []
   /\ Table.cursorStack (Table.ui (Table.handle store Table.ClickSala w1)) = [])
  /\ (Table2.cursorStack (Table2.ui w2) <> []
      /\ Table2.cursorStack
           (Table2.ui (Table2.handle store (Table2.ChangeYear "2009") w2)) = []).
Proof.
  intros store w1 w2.
  destruct (query_change_refetches_first_page store
              Table.ClickSala w1 (Table2.ChangeYear "2009") w2)
    as [(_ & _ & H1 & _) (_ & _ & H2 & _)].
  - vm_compute. reflexivity.
  - vm_compute. reflexivity.
  - split; (split; [vm_compute; discriminate|]).
    + eapply H1. reflexivity.
    + eapply H2. reflexivity.
Defined.

(** C6, as stated, fails when the first-page query is rejected: the
    cursor stack of the previous query is kept. *)
Lemma failed_reset_keeps_cursor_stack :
  let store :=
    MemStore.serveUnless (MemStore.ordersBy "año")
      (ErrorInstance "The query requires an index") MemStore.sample in
  let w := Table.handle store Table.ClickSiguiente (Table.mount store) in
  Table.reachable store w
  /\ Table.enabled Table.ClickYear (Table.ui w) = true
  /\ Table.depsChanged (Table.ui w) (Table.update Table.ClickYear (Table.ui w)) = true
  /\ Table.cursorStack (Table.ui (Table.handle store Table.ClickYear w))
     = [MemStore.decision 32]
  /\ Table.cursorStack (Table.ui (Table.handle store Table.ClickYear w)) <> [].
Proof.
  intros store w. split; [|split; [|split; [|split]]].
  - apply Table.reach_event; [apply Table.reach_mount|]. vm_compute. reflexivity.
  - reflexivity.
  - vm_compute. reflexivity.
  - vm_compute. reflexivity.
  - vm_compute. discriminate.
Qed.

(** ** Failed fetches *)

Section FailedFetch.
Variable store : Store.

Lemma failed_onNext w c e :
  Table.nextCursor (Table.ui w) = Some c ->
  store (Table.pageQuery (Table.ui w) (Some c)) = inl e ->
  Table.session (Table.ui (Table.onNext store w))
  = (Table.cursorStack (Table.ui w) ++ [c], Table.rows (Table.ui w),
     Table.nextCursor (Table.ui w))
  /\ Table.err (Table.ui (Table.onNext store w)) = Some (Table.errorMessage e).
Proof.
  intros Hc He. rewrite onNext_unfold, Hc.
  set (w1 := {| Table.ui := _; Table.sent := _ |}).
  destruct (fetchPage_failed store false (Some c) w1 e He) as [-> ->].
  unfold Table.session. cbn. rewrite Hc. split; reflexivity.
Qed.

Lemma failed_onNext_v2 w c e :
  Table2.nextCursor (Table2.ui w) = Some c ->
  store (Table2.pageQuery (Table2.ui w) (Some c)) = inl e ->
  Table2.session (Table2.ui (Table2.onNext store w))
  = (Table2.cursorStack (Table2.ui w) ++ [c], Table2.rows (Table2.ui w),
     Table2.nextCursor (Table2.ui w))
  /\ Table2.err (Table2.ui (Table2.onNext store w))
     = Some (Table2.errorMessage e).
Proof.
  intros Hc He. rewrite onNext_unfold_v2, Hc.
  set (w1 := {| Table2.ui := _; Table2.sent := _ |}).
  destruct (fetchPage_failed_v2 store false (Some c) w1 e He) as [-> ->].
  unfold Table2.session. cbn. rewrite Hc. split; reflexivity.
Qed.

Lemma failed_onPrev w e :
  Table.cursorStack (Table.ui w) <> [] ->
  store (Table.pageQuery (Table.ui w)
           (last (removelast (Table.cursorStack (Table.ui w))))) = inl e ->
  Table.session (Table.ui (Table.onPrev store w))
  = (removelast (Table.cursorStack (Table.ui w)), Table.rows (Table.ui w),
     Table.nextCursor (Table.ui w))
  /\ Table.err (Table.ui (Table.onPrev store w)) = Some (Table.errorMessage e).
Proof.
  intros Hne He. unfold Table.onPrev.
  destruct (length (Table.cursorStack (Table.ui w)) =? 0)%nat eqn:El.
  { apply Nat.eqb_eq in El.
    destruct (Table.cursorStack (Table.ui w)); [congruence|discriminate]. }
  cbn [Table.ui].
  destruct (fetchPage_failed store false _ w e He) as [Hs Herr].
  injection Hs as _ Hrows Hnext.
  unfold Table.session.
  cbn [Table.cursorStack Table.rows Table.nextCursor Table.err
       Table.setCursorStack].
  rewrite Hrows, Hnext, Herr. split; reflexivity.
Qed.

Lemma failed_onPrev_v2 w e :
  Table2.cursorStack (Table2.ui w) <> [] ->
  store (Table2.pageQuery (Table2.ui w)
           (last (removelast (Table2.cursorStack (Table2.ui w))))) = inl e ->
  Table2.session (Table2.ui (Table2.onPrev store w))
  = (removelast (Table2.cursorStack (Table2.ui w)), Table2.rows (Table2.ui w),
     Table2.nextCursor (Table2.ui w))
  /\ Table2.err (Table2.ui (Table2.onPrev store w))
     = Some (Table2.errorMessage e).
Proof.
  intros Hne He. unfold Table2.onPrev.
  destruct (length (Table2.cursorStack (Table2.ui w)) =? 0)%nat eqn:El.
  { apply Nat.eqb_eq in El.
    destruct (Table2.cursorStack (Table2.ui w)); [congruence|discriminate]. }
  cbn [Table2.ui].
  destruct (fetchPage_failed_v2 store false _ w e He) as [Hs Herr].
  injection Hs as _ Hrows Hnext.
  unfold Table2.session.
  cbn [Table2.cursorStack Table2.rows Table2.nextCursor Table2.err
       Table2.setCursorStack].
  rewrite Hrows, Hnext, Herr. split; reflexivity.
Qed.

(** A rejected reset keeps the whole session state. *)
Lemma failed_reset w e :
  store (Table.pageQuery (Table.ui w) None) = inl e ->
  Table.session (Table.ui (Table.runOp store Table.ResetAndFetchFirstPage w))
  = Table.session (Table.ui w).
Proof. intros He. apply (fetchPage_failed store true None w e He). Qed.

Lemma failed_reset_v2 w e :
  store (Table2.pageQuery (Table2.ui w) None) = inl e ->
  Table2.session (Table2.ui (Table2.runOp store Table2.ResetAndFetchFirstPage w))
  = Table2.session (Table2.ui w).
Proof. intros He. apply (fetchPage_failed_v2 store true None w e He). Qed.

End FailedFetch.

(** C1. The code at a failed fetch: from the first page, a "next" whose
    query is rejected leaves the pushed cursor on the stack; from the
    second page, a "previous" whose query is rejected leaves the stack
    popped; rows and next cursor are kept in both cases. *)
Theorem failed_navigation_changes_cursor_stack :
  let store := MemStore.serve MemStore.sample in
  let down := MemStore.serveUnless (fun _ => true)
                (ErrorInstance "unavailable") [] in
  let page1 := Table.mount store in
  let page2 := Table.onNext store page1 in
  let next_failed := Table.runOp down Table.FetchNext page1 in
  let prev_failed := Table.runOp down Table.FetchPrevious page2 in
  (Table.err (Table.ui next_failed) = Some "unavailable"
   /\ Table.session (Table.ui page1)
      = ([], Table.rows (Table.ui page1), Some (MemStore.decision 32))
   /\ Table.session (Table.ui next_failed)
      = ([MemStore.decision 32], Table.rows (Table.ui page1),
         Some (MemStore.decision 32))
   /\ Table.session (Table.ui next_failed) <> Table.session (Table.ui page1))
  /\ (Table.err (Table.ui prev_failed) = Some "unavailable"
      /\ Table.cursorStack (Table.ui page2) = [MemStore.decision 32]
      /\ Table.session (Table.ui prev_failed)
         = ([], Table.rows (Table.ui page2), Table.nextCursor (Table.ui page2))
      /\ Table.session (Table.ui prev_failed) <> Table.session (Table.ui page2)).
Proof.
  intros store down page1 page2 next_failed prev_failed.
  assert (Hc : Table.nextCursor (Table.ui page1) = Some (MemStore.decision 32))
    by (vm_compute; reflexivity).
  assert (Hs : Table.cursorStack (Table.ui page1) = [])
    by (vm_compute; reflexivity).
  assert (Hs2 : Table.cursorStack (Table.ui page2) = [MemStore.decision 32]).
  { unfold page2. rewrite (onNext_cursorStack store page1 _ Hc), Hs. reflexivity. }
  clearbody page2. clearbody page1.
  subst next_failed prev_failed. cbn [Table.runOp].
  destruct (failed_onNext down page1 _ (ErrorInstance "unavailable") Hc eq_refl)
    as [Hn Hne].
  destruct (failed_onPrev down page2 (ErrorInstance "unavailable")) as [Hp Hpe].
  { rewrite Hs2. discriminate. }
  { reflexivity. }
  rewrite Hs, Hc in Hn. rewrite Hs2 in Hp. cbn [app removelast] in Hn, Hp.
  split; [|split; [exact Hpe|split; [exact Hs2|split; [exact Hp|]]]].
  - split; [exact Hne|]. split; [|split; [exact Hn|]].
    + unfold Table.session. rewrite Hs, Hc. reflexivity.
    + rewrite Hn. unfold Table.session. rewrite Hs. discriminate.
  - rewrite Hp. unfold Table.session. rewrite Hs2. discriminate.
Qed.

(** ** Paging forward and back *)

Section BackAndForth.

(** C5. From the first page, n uses of "next", each made while a next
    cursor is shown, followed by n uses of "previous", show the rows of
    the first page again, when the store answers equal queries
    equally. *)
Theorem previous_undoes_next
    (store : Store) (w : Table.World)
    (docs : list DocumentSnapshot) (n : nat) :
  store (Table.pageQuery (Table.ui w) None) = inr docs ->
  (forall k, (k < n)%nat ->
     Table.nextCursor
       (Table.ui (Nat.iter k (Table.onNext store)
                    (Table.fetchPage store true None w))) <> None) ->
  Table.rows
    (Table.ui (Nat.iter n (Table.onPrev store)
                 (Nat.iter n (Table.onNext store)
                    (Table.fetchPage store true None w))))
  = Table.rows (Table.ui (Table.fetchPage store true None w)).
Proof.
  intros Hq Hn.
  destruct (fetchPage_ok store true None w docs Hq) as (Hrows & _ & Hstack & _).
  destruct n as [|n]; [reflexivity|].
  rewrite Nat.iter_succ, Hrows.
  apply onPrev_to_first_page.
  - rewrite iter_onPrev_length, iter_onNext_length by exact Hn.
    rewrite Hstack. cbn [length]. lia.
  - rewrite <- Hq. f_equal. apply pageQuery_identity.
    rewrite iter_onPrev_identity, iter_onNext_identity.
    apply fetchPage_identity.
Qed.

End BackAndForth.

Lemma previous_undoes_next_witness :
  let store := MemStore.serve MemStore.sample in
  Table.rows
    (Table.ui (Nat.iter 2 (Table.onPrev store)
                 (Nat.iter 2 (Table.onNext store) (Table.mount store))))
  = Table.rows (Table.ui (Table.mount store)).
Proof.
  eapply (previous_undoes_next (MemStore.serve MemStore.sample)
            {| Table.ui := Table.initial; Table.sent := [] |} _ 2).
  - reflexivity.
  - intros [|[|k]] Hk; [vm_compute; discriminate|vm_compute; discriminate|lia].
Defined.

(** ** The scenarios of the specification on the sample collection *)

Example scenario_A_page_sizes :
  let store := MemStore.serve MemStore.sample in
  let page1 := Table.mount store in
  let page2 := Table.onNext store page1 in
  let page3 := Table.onNext store page2 in
  map (fun w => (length (Table.rows (Table.ui w)),
                 Table.canNext (Table.ui w),
                 length (Table.cursorStack (Table.ui w))))
      [page1; page2; page3]
  = [(50, true, 0); (50, true, 1); (20, false, 2)]%nat.
Proof. vm_compute. reflexivity. Qed.

Example scenario_C_no_match :
  let store := MemStore.serve MemStore.sample in
  let w := Table.handle store (Table.ChangeExpPrefix "ZZ-")
             (Table.handle store Table.ClickExpediente (Table.mount store)) in
  Table.rows (Table.ui w) = [] /\ Table.nextCursor (Table.ui w) = None
  /\ Table.err (Table.ui w) = None.
Proof. vm_compute. repeat split. Qed.

(** * Further properties of the code *)

(** ** Rows and queries of [FirestoreService.getPaged] *)

Section Rows.
Import FirestoreService.

(** X1. In a row built as [{ id: d.id, ...d.data() }] every field of the
    document is kept, and the key [id] holds the document's own [id]
    field when it has one, the document id otherwise. *)
Theorem toRow_lookup (d : DocumentSnapshot) (k : string) :
  toRow d !! k =
  if bool_decide (k = "id")
  then Some (default (VString (snap_id d)) (snap_data d !! "id"))
  else snap_data d !! k.
Proof.
  unfold toRow, Row. rewrite lookup_union.
  case_bool_decide as Hk.
  - subst k. rewrite lookup_singleton_eq.
    destruct (snap_data d !! "id"); reflexivity.
  - rewrite lookup_singleton_ne by congruence.
    destruct (snap_data d !! k); reflexivity.
Qed.

(** X2. The query of [getPaged] for a positive page size: the caller's
    constraints unchanged and first, then the order-by clause (none for
    a missing or empty field name, ascending when no direction is
    given), then the limit, then the start position if any; one request
    is sent per call, also when the store throws. *)
Theorem getPaged_request
    (store : Store) (coll : string) (n : Z) (o : option Options)
    (sent : list Query) :
  0 < n ->
  let q :=
    {| q_collection := coll;
       q_constraints :=
         default [] (o ≫= constraints)
         ++ match o ≫= orderByField with
            | Some f =>
                if truthy f then [OrderBy f (default asc (o ≫= order))] else []
            | None => []
            end
         ++ [Limit n]
         ++ match o ≫= startAfterSnapshot with
            | Some c => [StartAfter c]
            | None => []
            end |} in
  buildQuery coll n o = q
  /\ snd (getPaged store coll n o sent) = sent ++ [q].
Proof.
  intros _. cbv zeta.
  assert (E : buildQuery coll n o =
              {| q_collection := coll;
                 q_constraints :=
                   default [] (o ≫= constraints)
                   ++ match o ≫= orderByField with
                      | Some f =>
                          if truthy f
                          then [OrderBy f (default asc (o ≫= order))] else []
                      | None => []
                      end
                   ++ [Limit n]
                   ++ match o ≫= startAfterSnapshot with
                      | Some c => [StartAfter c]
                      | None => []
                      end |}).
  { unfold buildQuery. f_equal.
    destruct (o ≫= constraints) as [[|c cs]|];
      destruct (o ≫= orderByField) as [f|]; try destruct (truthy f);
      destruct (o ≫= startAfterSnapshot);
      cbn; rewrite <- ?app_assoc; cbn; rewrite ?app_nil_r; reflexivity. }
  split; [exact E|]. rewrite getPaged_unfold. cbn [snd]. rewrite E. reflexivity.
Qed.

End Rows.

Lemma getPaged_request_witness :
  let store := MemStore.serveUnless (fun _ => true) NotAnError [] in
  let o := {| FirestoreService.orderByField := Some "";
              FirestoreService.order := None;
              FirestoreService.startAfterSnapshot := None;
              FirestoreService.constraints :=
                Some [Where "sala_num" OpEq (ONumberOf "2")] |} in
  let q := {| q_collection := "sentencias";
              q_constraints :=
                [Where "sala_num" OpEq (ONumberOf "2"); Limit 50] |} in
  FirestoreService.buildQuery "sentencias" 50 (Some o) = q
  /\ snd (FirestoreService.getPaged store "sentencias" 50 (Some o) []) = [q].
Proof.
  intros store o q.
  apply (getPaged_request store "sentencias" 50 (Some o) []). lia.
Defined.

(** ** One step of src/components/Table.tsx *)

Section TableSteps.
Import Table TableView.
Variable store : Store.

Lemma update_keeps ev s :
  rows (update ev s) = rows s
  /\ cursorStack (update ev s) = cursorStack s
  /\ nextCursor (update ev s) = nextCursor s
  /\ loading (update ev s) = loading s
  /\ err (update ev s) = err s
  /\ orderByField (update ev s) = orderByField s.
Proof. destruct ev; repeat split. Qed.

Lemma depsChanged_false s s' :
  depsChanged s s' = false -> identity s' = identity s.
Proof.
  unfold depsChanged. intros H. apply negb_false_iff, bool_decide_eq_true in H.
  symmetry. exact H.
Qed.

(** What a control does: nothing but its setters, a fetch of the first
    page, a fetch of the next page, or a fetch of the previous one. *)
Lemma handle_step ev w :
  (handle store ev w = {| ui := update ev (ui w); sent := sent w |}
   /\ identity (update ev (ui w)) = identity (ui w))
  \/ handle store ev w
     = fetchPage store true None {| ui := update ev (ui w); sent := sent w |}
  \/ (exists c,
        nextCursor (ui w) = Some c /\ update ev (ui w) = ui w
        /\ handle store ev w
           = fetchPage store false (Some c)
               {| ui := setCursorStack (cursorStack (ui w) ++ [c]) (ui w);
                  sent := sent w |})
  \/ (cursorStack (ui w) <> [] /\ update ev (ui w) = ui w
      /\ handle store ev w
         = {| ui :=
                setCursorStack (removelast (cursorStack (ui w)))
                  (ui (fetchPage store false
                         (last (removelast (cursorStack (ui w)))) w));
              sent :=
                sent (fetchPage store false
                        (last (removelast (cursorStack (ui w)))) w) |}).
Proof.
  destruct w as [s snt].
  destruct ev; cbn [handle update ui sent];
    try (match goal with
         | |- context [if depsChanged ?a ?b then _ else _] =>
             destruct (depsChanged a b) eqn:E
         end;
         [ right; left; reflexivity
         | left; split; [reflexivity|apply depsChanged_false, E] ]).
  - right; left; reflexivity.
  - unfold onPrev. cbn [ui sent].
    destruct (length (cursorStack s) =? 0)%nat eqn:El.
    + left. split; reflexivity.
    + right; right; right. split; [|split; reflexivity].
      intros Hs. rewrite Hs in El. discriminate.
  - rewrite onNext_unfold. cbn [ui sent].
    destruct (nextCursor s) as [c|] eqn:Hc.
    + right; right; left. exists c. repeat split.
    + left. split; reflexivity.
Qed.

Lemma outcomeOf_errorMessage q :
  outcomeOf store q
  = match store q with inr _ => None | inl e => Some (errorMessage e) end.
Proof. unfold outcomeOf. destruct (store q) as [[]|]; reflexivity. Qed.

Lemma fetchPage_flagsSettled reset sa w :
  flagsSettled store (fetchPage store reset sa w).
Proof.
  unfold flagsSettled. rewrite fetchPage_unfold. cbn [ui sent]. split.
  - destruct (store (pageQuery (ui w) sa)); destruct reset; reflexivity.
  - exists (pageQuery (ui w) sa). split; [apply last_snoc|].
    rewrite outcomeOf_errorMessage.
    destruct (store (pageQuery (ui w) sa)); destruct reset; reflexivity.
Qed.

Lemma reachable_flagsSettled w : reachable store w -> flagsSettled store w.
Proof.
  induction 1 as [|ev w Hw IH He]; [apply fetchPage_flagsSettled|].
  destruct (handle_step ev w) as [[-> _]|[->|[(c & _ & _ & ->)|(_ & _ & ->)]]];
    [|apply fetchPage_flagsSettled|apply fetchPage_flagsSettled
     |exact (fetchPage_flagsSettled false _ w)].
  - destruct IH as [Hl Hq]. destruct (update_keeps ev (ui w)) as (_ & _ & _ & El & Ee & _).
    split; cbn [ui sent]; [congruence|]. rewrite Ee. exact Hq.
Qed.

Lemma fetchPage_pageQuery reset sa w sa' :
  pageQuery (ui (fetchPage store reset sa w)) sa' = pageQuery (ui w) sa'.
Proof. apply pageQuery_identity, fetchPage_identity. Qed.

Lemma fetchPage_showsCurrentPage_reset w :
  (forall q, exists docs, store q = inr docs) ->
  showsCurrentPage store (ui (fetchPage store true None w)).
Proof.
  intros Hok. destruct (Hok (pageQuery (ui w) None)) as [docs Hd].
  destruct (fetchPage_ok store true None w docs Hd) as (Hr & Hn & Hs & _).
  exists docs. rewrite Hs, fetchPage_pageQuery. cbn [last]. auto.
Qed.

Lemma reachable_showsCurrentPage w :
  (forall q, exists docs, store q = inr docs) ->
  reachable store w -> showsCurrentPage store (ui w).
Proof.
  intros Hok. induction 1 as [|ev w Hw IH He];
    [apply fetchPage_showsCurrentPage_reset, Hok|].
  destruct (handle_step ev w)
    as [[-> Hid]|[->|[(c & Hc & _ & ->)|(Hne & _ & ->)]]].
  - cbn [ui]. destruct IH as (docs & Hd & Hr & Hn).
    destruct (update_keeps ev (ui w)) as (Er & Es & En & _).
    exists docs. rewrite Er, Es, En, (pageQuery_identity _ _ _ Hid). auto.
  - apply fetchPage_showsCurrentPage_reset, Hok.
  - set (w1 := {| ui := _; sent := _ |}).
    destruct (Hok (pageQuery (ui w1) (Some c))) as [docs Hd].
    destruct (fetchPage_ok store false (Some c) w1 docs Hd) as (Hr & Hn & Hs & _).
    exists docs. rewrite Hs, fetchPage_pageQuery.
    subst w1. cbn [ui cursorStack setCursorStack]. rewrite last_snoc. auto.
  - set (sa := last (removelast (cursorStack (ui w)))).
    destruct (Hok (pageQuery (ui w) sa)) as [docs Hd].
    destruct (fetchPage_ok store false sa w docs Hd) as (Hr & Hn & _ & _).
    exists docs. cbn [ui]. split; [|split; assumption].
    rewrite <- Hd. f_equal.
    transitivity (pageQuery (ui (fetchPage store false sa w)) sa);
      [reflexivity|apply fetchPage_pageQuery].
Qed.

Lemma fetchPage_cursorStack reset sa w :
  cursorStack (ui (fetchPage store reset sa w)) = cursorStack (ui w)
  \/ (reset = true
      /\ cursorStack (ui (fetchPage store reset sa w))
         = match sa with Some c => [c] | None => [] end).
Proof.
  rewrite fetchPage_unfold. cbn [ui].
  destruct (store (pageQuery (ui w) sa)); destruct reset; auto.
Qed.

End TableSteps.

(** ** One step of the second version of the component *)

Section Table2Steps.
Import Table2 Table2View.
Variable store : Store.

Lemma update_keeps_v2 ev s :
  rows (update ev s) = rows s
  /\ cursorStack (update ev s) = cursorStack s
  /\ nextCursor (update ev s) = nextCursor s
  /\ loading (update ev s) = loading s
  /\ err (update ev s) = err s
  /\ orderByField (update ev s) = orderByField s.
Proof. destruct ev; repeat split. Qed.

Lemma identity_queryInputs s s' :
  identity s' = identity s -> orderByField s' = orderByField s ->
  queryInputs s' = queryInputs s.
Proof.
  unfold identity, queryInputs. intros H Ho. injection H as -> -> -> -> ->.
  rewrite Ho. reflexivity.
Qed.

Lemma depsChanged_false_v2 s s' :
  depsChanged s s' = false -> identity s' = identity s.
Proof.
  unfold depsChanged. intros H. apply negb_false_iff, bool_decide_eq_true in H.
  symmetry. exact H.
Qed.

(** What a control does: nothing but its setters, a fetch of the first
    page, a fetch of the next page, or a fetch of the previous one. *)
Lemma handle_step_v2 ev w :
  (handle store ev w = {| ui := update ev (ui w); sent := sent w |}
   /\ queryInputs (update ev (ui w)) = queryInputs (ui w))
  \/ handle store ev w
     = fetchPage store true None {| ui := update ev (ui w); sent := sent w |}
  \/ (exists c,
        nextCursor (ui w) = Some c /\ update ev (ui w) = ui w
        /\ handle store ev w
           = fetchPage store false (Some c)
               {| ui := setCursorStack (cursorStack (ui w) ++ [c]) (ui w);
                  sent := sent w |})
  \/ (cursorStack (ui w) <> [] /\ update ev (ui w) = ui w
      /\ handle store ev w
         = {| ui :=
                setCursorStack (removelast (cursorStack (ui w)))
                  (ui (fetchPage store false
                         (last (removelast (cursorStack (ui w)))) w));
              sent :=
                sent (fetchPage store false
                        (last (removelast (cursorStack (ui w)))) w) |}).
Proof.
  destruct w as [s snt].
  destruct ev; cbn [handle update ui sent];
    try (match goal with
         | |- context [if depsChanged ?a ?b then _ else _] =>
             destruct (depsChanged a b) eqn:E
         end;
         [ right; left; reflexivity
         | left; split;
           [ reflexivity
           | apply identity_queryInputs;
             [apply depsChanged_false_v2, E|reflexivity] ] ]).
  - unfold onPrev. cbn [ui sent].
    destruct (length (cursorStack s) =? 0)%nat eqn:El.
    + left. split; reflexivity.
    + right; right; right. split; [|split; reflexivity].
      intros Hs. rewrite Hs in El. discriminate.
  - rewrite onNext_unfold_v2. cbn [ui sent].
    destruct (nextCursor s) as [c|] eqn:Hc.
    + right; right; left. exists c. repeat split.
    + left. split; reflexivity.
Qed.

Lemma outcomeOf_errorMessage_v2 q :
  outcomeOf store q
  = match store q with inr _ => None | inl e => Some (errorMessage e) end.
Proof. unfold outcomeOf. destruct (store q) as [[]|]; reflexivity. Qed.

Lemma fetchPage_flagsSettled_v2 reset sa w :
  flagsSettled store (fetchPage store reset sa w).
Proof.
  unfold flagsSettled. rewrite fetchPage_unfold_v2. cbn [ui sent]. split.
  - destruct (store (pageQuery (ui w) sa)); destruct reset; reflexivity.
  - exists (pageQuery (ui w) sa). split; [apply last_snoc|].
    rewrite outcomeOf_errorMessage_v2.
    destruct (store (pageQuery (ui w) sa)); destruct reset; reflexivity.
Qed.

Lemma reachable_flagsSettled_v2 w : reachable store w -> flagsSettled store w.
Proof.
  induction 1 as [|ev w Hw IH He]; [apply fetchPage_flagsSettled_v2|].
  destruct (handle_step_v2 ev w) as [[-> _]|[->|[(c & _ & _ & ->)|(_ & _ & ->)]]];
    [|apply fetchPage_flagsSettled_v2|apply fetchPage_flagsSettled_v2
     |exact (fetchPage_flagsSettled_v2 false _ w)].
  - destruct IH as [Hl Hq]. destruct (update_keeps_v2 ev (ui w)) as (_ & _ & _ & El & Ee & _).
    split; cbn [ui sent]; [congruence|]. rewrite Ee. exact Hq.
Qed.

Lemma fetchPage_pageQuery_v2 reset sa w sa' :
  pageQuery (ui (fetchPage store reset sa w)) sa' = pageQuery (ui w) sa'.
Proof. apply pageQuery_identity_v2, fetchPage_identity_v2. Qed.

Lemma fetchPage_showsCurrentPage_reset_v2 w :
  (forall q, exists docs, store q = inr docs) ->
  showsCurrentPage store (ui (fetchPage store true None w)).
Proof.
  intros Hok. destruct (Hok (pageQuery (ui w) None)) as [docs Hd].
  destruct (fetchPage_ok_v2 store true None w docs Hd) as (Hr & Hn & Hs & _).
  exists docs. rewrite Hs, fetchPage_pageQuery_v2. cbn [last]. auto.
Qed.

Lemma reachable_showsCurrentPage_v2 w :
  (forall q, exists docs, store q = inr docs) ->
  reachable store w -> showsCurrentPage store (ui w).
Proof.
  intros Hok. induction 1 as [|ev w Hw IH He];
    [apply fetchPage_showsCurrentPage_reset_v2, Hok|].
  destruct (handle_step_v2 ev w)
    as [[-> Hid]|[->|[(c & Hc & _ & ->)|(Hne & _ & ->)]]].
  - cbn [ui]. destruct IH as (docs & Hd & Hr & Hn).
    destruct (update_keeps_v2 ev (ui w)) as (Er & Es & En & _).
    exists docs. rewrite Er, Es, En, (pageQuery_identity_v2 _ _ _ Hid). auto.
  - apply fetchPage_showsCurrentPage_reset_v2, Hok.
  - set (w1 := {| ui := _; sent := _ |}).
    destruct (Hok (pageQuery (ui w1) (Some c))) as [docs Hd].
    destruct (fetchPage_ok_v2 store false (Some c) w1 docs Hd) as (Hr & Hn & Hs & _).
    exists docs. rewrite Hs, fetchPage_pageQuery_v2.
    subst w1. cbn [ui cursorStack setCursorStack]. rewrite last_snoc. auto.
  - set (sa := last (removelast (cursorStack (ui w)))).
    destruct (Hok (pageQuery (ui w) sa)) as [docs Hd].
    destruct (fetchPage_ok_v2 store false sa w docs Hd) as (Hr & Hn & _ & _).
    exists docs. cbn [ui]. split; [|split; assumption].
    rewrite <- Hd. f_equal.
    transitivity (pageQuery (ui (fetchPage store false sa w)) sa);
      [reflexivity|apply fetchPage_pageQuery_v2].
Qed.

Lemma fetchPage_cursorStack_v2 reset sa w :
  cursorStack (ui (fetchPage store reset sa w)) = cursorStack (ui w)
  \/ (reset = true
      /\ cursorStack (ui (fetchPage store reset sa w))
         = match sa with Some c => [c] | None => [] end).
Proof.
  rewrite fetchPage_unfold_v2. cbn [ui].
  destruct (store (pageQuery (ui w) sa)); destruct reset; auto.
Qed.

End Table2Steps.

(** ** What the page shows after a fetch *)

Section AfterFetch.
Variable store : Store.

Lemma full_page_has_cursor (docs : list DocumentSnapshot) :
  bool_decide
    (is_Some (FirestoreService.nextCursor (FirestoreService.pageOf 50 docs)))
  = true
  <-> length docs = 50%nat.
Proof.
  rewrite pageOf_nextCursor, bool_decide_eq_true. split.
  - intros [c Hc]. destruct (last docs); [|discriminate].
    destruct (Z.eqb_spec (Z.of_nat (length docs)) 50); [lia|discriminate].
  - intros Hl. destruct (last docs) as [d|] eqn:E.
    + rewrite Hl. cbn. eauto.
    + apply last_None in E. subst docs. discriminate.
Qed.

(** X3. After a fetch that the store answered, "Siguiente" is available
    exactly when the page shows 50 rows; in particular never on an empty
    page.  Each version on its own. *)
Theorem canNext_iff_full_page :
  (forall (store0 : Store) (reset : bool) (sa : option DocumentSnapshot)
          (w : Table.World) (docs : list DocumentSnapshot),
      store0 (Table.pageQuery (Table.ui w) sa) = inr docs ->
      Table.canNext (Table.ui (Table.fetchPage store0 reset sa w)) = true
      <-> length (Table.rows (Table.ui (Table.fetchPage store0 reset sa w)))
          = 50%nat)
  /\ (forall (store0 : Store) (reset : bool) (sa : option DocumentSnapshot)
             (w : Table2.World) (docs : list DocumentSnapshot),
         store0 (Table2.pageQuery (Table2.ui w) sa) = inr docs ->
         Table2.canNext (Table2.ui (Table2.fetchPage store0 reset sa w)) = true
         <-> length (Table2.rows (Table2.ui (Table2.fetchPage store0 reset sa w)))
             = 50%nat).
Proof.
  split; intros store0 reset sa w docs Hq.
  - destruct (fetchPage_ok store0 reset sa w docs Hq) as (Hr & Hn & _).
    unfold Table.canNext. rewrite Hr, Hn, length_map.
    apply full_page_has_cursor.
  - destruct (fetchPage_ok_v2 store0 reset sa w docs Hq) as (Hr & Hn & _).
    unfold Table2.canNext. rewrite Hr, Hn, length_map.
    apply full_page_has_cursor.
Qed.

End AfterFetch.

Lemma reachable_page2 :
  let store := MemStore.serve MemStore.sample in
  Table.reachable store
    (Table.handle store Table.ClickSiguiente (Table.mount store)).
Proof.
  apply Table.reach_event; [apply Table.reach_mount|]. vm_compute. reflexivity.
Defined.

Lemma reachable_page2_v2 :
  let store := MemStore.serve MemStore.sample in
  Table2.reachable store
    (Table2.handle store Table2.ClickSiguiente (Table2.mount store)).
Proof.
  apply Table2.reach_event; [apply Table2.reach_mount|]. vm_compute. reflexivity.
Defined.

Lemma canNext_iff_full_page_witness :
  let store := MemStore.serve MemStore.sample in
  let w1 := {| Table.ui := Table.initial; Table.sent := [] |} in
  let w2 := {| Table2.ui := Table2.initial; Table2.sent := [] |} in
  (Table.canNext (Table.ui (Table.fetchPage store true None w1)) = true
   <-> length (Table.rows (Table.ui (Table.fetchPage store true None w1)))
       = 50%nat)
  /\ (Table2.canNext (Table2.ui (Table2.fetchPage store true None w2)) = true
      <-> length (Table2.rows (Table2.ui (Table2.fetchPage store true None w2)))
          = 50%nat).
Proof.
  intros store w1 w2. split.
  - eapply (proj1 canNext_iff_full_page store true None w1). reflexivity.
  - eapply (proj2 canNext_iff_full_page store true None w2). reflexivity.
Defined.

(** ** The shape of the queries *)

Section QueryShape.

Lemma onlyWhere_filter cs : onlyWhere cs -> List.filter is_where cs = cs.
Proof.
  induction 1 as [|c cs Hc _ IH]; [reflexivity|].
  cbn. rewrite Hc, IH. reflexivity.
Qed.

Lemma onlyWhere_no_limit cs :
  onlyWhere cs ->
  omap (fun c => match c with Limit n => Some n | _ => None end) cs = [].
Proof.
  induction 1 as [|c cs Hc _ IH]; [reflexivity|].
  destruct c; try discriminate. cbn. exact IH.
Qed.

Lemma predicates_pageQuery s sa :
  predicates (Table.pageQuery s sa) = Table.constraints s.
Proof.
  unfold predicates. rewrite pageQuery_constraints, List.filter_app.
  rewrite onlyWhere_filter by apply constraints_onlyWhere.
  destruct sa; cbn; apply app_nil_r.
Qed.

Lemma predicates_pageQuery_v2 s sa :
  predicates (Table2.pageQuery s sa) = Table2.constraints s.
Proof.
  unfold predicates. rewrite pageQuery_constraints_v2, List.filter_app.
  rewrite onlyWhere_filter by apply constraints_onlyWhere_v2.
  destruct sa; cbn; apply app_nil_r.
Qed.

Lemma limits_pageQuery s sa : limits (Table.pageQuery s sa) = [50].
Proof.
  unfold limits. rewrite pageQuery_constraints, omap_app.
  rewrite onlyWhere_no_limit by apply constraints_onlyWhere.
  destruct sa; reflexivity.
Qed.

Lemma limits_pageQuery_v2 s sa : limits (Table2.pageQuery s sa) = [50].
Proof.
  unfold limits. rewrite pageQuery_constraints_v2, omap_app.
  rewrite onlyWhere_no_limit by apply constraints_onlyWhere_v2.
  destruct sa; reflexivity.
Qed.

(** X5. In src/components/Table.tsx every predicate of a query is on the
    field the query is ordered by, whatever the state: a filter never
    needs an index over two fields. *)
Theorem predicates_on_order_by_field
    (s : Table.State) (sa : option DocumentSnapshot) :
  order_by_fields (Table.pageQuery s sa) = [Table.obField s]
  /\ Forall (fun c => where_field c = Some (Table.obField s))
       (predicates (Table.pageQuery s sa)).
Proof.
  split; [apply pageQuery_order_by|].
  rewrite predicates_pageQuery.
  unfold Table.constraints, Table.obField, Table.filter_is.
  destruct (Table.activeFilterType s) as [[]|]; cbn;
    repeat match goal with
           | |- context [truthy ?x] => destruct (truthy x)
           end; repeat constructor.
Qed.

(** X6. The filter badge of Table.tsx is shown exactly when the query
    carries a predicate, and then shows the input of the selected
    filter; the chips of the second version are shown exactly when its
    query carries a predicate, one chip per filled input, the expediente
    chip standing for two predicates. *)
Theorem badges_match_predicates (s1 : Table.State) (s2 : Table2.State) :
  (Table.activeFilter s1 = None <-> Table.constraints s1 = [])
  /\ (forall label value,
         Table.activeFilter s1 = Some (label, value) ->
         value = Table.activeInput s1 /\ value <> "")
  /\ (Table2View.activeFilterChips s2 = [] <-> Table2.constraints s2 = [])
  /\ length (Table2.constraints s2)
     = (length (Table2View.activeFilterChips s2)
        + Nat.b2n (truthy (Table2.expPrefix s2)))%nat
  /\ map fst (Table2View.activeFilterChips s2) = Table2.activeFilters s2.
Proof.
  split; [|split; [|split; [|split]]].
  - unfold Table.activeFilter, Table.constraints.
    repeat match goal with
           | |- context [if ?b then _ else _] => destruct b
           end; split; intros; try discriminate; reflexivity.
  - intros label value.
    unfold Table.activeFilter, Table.activeInput, Table.filter_is.
    destruct (Table.activeFilterType s1) as [[]|]; cbn;
      repeat match goal with
             | |- context [truthy ?x] => destruct x eqn:?; cbn
             end; intros H; inversion H; subst; split;
      first [reflexivity | discriminate].
  - unfold Table2View.activeFilterChips, Table2.constraints.
    repeat match goal with
           | |- context [truthy ?x] => destruct (truthy x)
           end; split; intros; try discriminate; reflexivity.
  - unfold Table2View.activeFilterChips, Table2.constraints.
    repeat match goal with
           | |- context [truthy ?x] => destruct (truthy x)
           end; reflexivity.
  - unfold Table2View.activeFilterChips, Table2.activeFilters.
    repeat match goal with
           | |- context [truthy ?x] => destruct (truthy x)
           end; reflexivity.
Qed.

End QueryShape.

(** ** What the controls can reach *)

Section Reachable.
Variable store : Store.

Lemma reachable_orderByField w :
  Table.reachable store w -> Table.orderByField (Table.ui w) = Table.FSalaNum.
Proof.
  induction 1 as [|ev w Hw IH He].
  - pose proof (fetchPage_identity store true None
                  {| Table.ui := Table.initial; Table.sent := [] |}) as H.
    unfold Table.identity in H. injection H as H _ _. exact H.
  - pose proof (handle_identity store ev w) as H.
    unfold Table.identity in H. injection H as H _ _. rewrite H.
    destruct (update_keeps ev (Table.ui w)) as (_ & _ & _ & _ & _ & ->).
    exact IH.
Qed.

Lemma reachable_sent w :
  Table.reachable store w ->
  Forall (fun q => exists s sa,
              Table.orderByField s = Table.FSalaNum
              /\ q = Table.pageQuery s sa)
         (Table.sent w).
Proof.
  induction 1 as [|ev w Hw IH He].
  - unfold Table.mount. rewrite fetchPage_sent. repeat constructor.
    exists Table.initial, None. split; reflexivity.
  - destruct (handle_sent store ev w) as [sas ->].
    apply Forall_app. split; [exact IH|].
    apply Forall_forall. intros q Hq.
    apply list_elem_of_In, in_map_iff in Hq. destruct Hq as (sa & <- & _).
    eexists _, sa. split; [|reflexivity].
    destruct (update_keeps ev (Table.ui w)) as (_ & _ & _ & _ & _ & ->).
    apply reachable_orderByField, Hw.
Qed.

(** X8. Every query src/components/Table.tsx ever sends reads the
    collection "sentencias" with limit 50, at most one start position and
    at most two predicates, and is ordered by sala_num, año or
    expediente: no control changes the sort field. *)
Theorem sent_queries_shape (w : Table.World) :
  Table.reachable store w ->
  Forall (fun q =>
            q_collection q = "sentencias"
            /\ limits q = [50]
            /\ (length (start_positions q) <= 1)%nat
            /\ (length (predicates q) <= 2)%nat
            /\ exists f, order_by_fields q = [f]
                         /\ f ∈ ["sala_num"; "año"; "expediente"])
         (Table.sent w).
Proof.
  intros Hw. eapply Forall_impl; [apply reachable_sent, Hw|].
  intros q (s & sa & Ho & ->). cbv beta.
  split; [reflexivity|]. split; [apply limits_pageQuery|].
  split; [rewrite pageQuery_start; destruct sa; cbn; lia|].
  split.
  - rewrite predicates_pageQuery. unfold Table.constraints.
    repeat match goal with
           | |- context [if ?b then _ else _] => destruct b
           end; cbn; lia.
  - exists (Table.obField s). split; [apply pageQuery_order_by|].
    unfold Table.obField, Table.filter_is. rewrite Ho.
    destruct (Table.activeFilterType s) as [[]|]; cbn;
      repeat constructor.
Qed.

Lemma handle_queryInputs_v2 ev w :
  Table2.queryInputs (Table2.ui (Table2.handle store ev w))
  = Table2.queryInputs (Table2.update ev (Table2.ui w)).
Proof.
  destruct (handle_step_v2 store ev w)
    as [[-> _]|[->|[(c & _ & Hu & ->)|(_ & Hu & ->)]]].
  - reflexivity.
  - apply fetchPage_identity_v2.
  - rewrite fetchPage_identity_v2, Hu. reflexivity.
  - rewrite Hu.
    exact (fetchPage_identity_v2 store false
             (last (removelast (Table2.cursorStack (Table2.ui w)))) w).
Qed.

Lemma inputsFromControls_queryInputs s s' :
  Table2.queryInputs s' = Table2.queryInputs s ->
  Table2View.inputsFromControls s -> Table2View.inputsFromControls s'.
Proof.
  unfold Table2.queryInputs, Table2View.inputsFromControls.
  intros H. injection H as -> _ _ -> -> ->. tauto.
Qed.

Lemma update_inputsFromControls ev s :
  Table2.enabled ev s = true ->
  Table2View.inputsFromControls s ->
  Table2View.inputsFromControls (Table2.update ev s).
Proof.
  unfold Table2View.inputsFromControls.
  intros He (Ho & Hx & Hs & Hm).
  destruct ev; cbn [Table2.update Table2.enabled] in *; cbn;
    try apply bool_decide_eq_true in He;
    repeat split; try assumption; apply list_elem_of_here.
Qed.

Lemma reachable_inputsFromControls w :
  Table2.reachable store w -> Table2View.inputsFromControls (Table2.ui w).
Proof.
  induction 1 as [|ev w Hw IH He].
  - apply (inputsFromControls_queryInputs Table2.initial).
    + apply (fetchPage_identity_v2 store true None
               {| Table2.ui := Table2.initial; Table2.sent := [] |}).
    + repeat split; apply list_elem_of_here.
  - apply (inputsFromControls_queryInputs (Table2.update ev (Table2.ui w))).
    + apply handle_queryInputs_v2.
    + apply update_inputsFromControls; assumption.
Qed.

Lemma reachable_sent_v2 w :
  Table2.reachable store w ->
  Forall (fun q => exists s sa,
              Table2View.inputsFromControls s /\ q = Table2.pageQuery s sa)
         (Table2.sent w).
Proof.
  induction 1 as [|ev w Hw IH He].
  - unfold Table2.mount. rewrite fetchPage_sent_v2. repeat constructor.
    exists Table2.initial, None.
    split; [repeat split; apply list_elem_of_here|reflexivity].
  - destruct (handle_sent_v2 store ev w) as [sas ->].
    apply Forall_app. split; [exact IH|].
    apply Forall_forall. intros q Hq.
    apply list_elem_of_In, in_map_iff in Hq. destruct Hq as (sa & <- & _).
    eexists _, sa. split; [|reflexivity].
    apply update_inputsFromControls;
      [assumption|apply reachable_inputsFromControls, Hw].
Qed.

(** X7. In the second version no control fills the expediente prefix or
    changes the sort field: the prefix stays empty in every reachable
    state, and every query ever sent reads "sentencias" with limit 50,
    is ordered by year and carries no predicate on exp. *)
Theorem prefix_filter_unreachable_v2 (w : Table2.World) :
  Table2.reachable store w ->
  Table2.expPrefix (Table2.ui w) = ""
  /\ Forall (fun q =>
               q_collection q = "sentencias"
               /\ limits q = [50]
               /\ order_by_fields q = ["year"]
               /\ predicatesOn "exp" (q_constraints q) = []
               /\ (length (predicates q) <= 3)%nat)
            (Table2.sent w).
Proof.
  intros Hw. split; [apply (reachable_inputsFromControls w Hw)|].
  eapply Forall_impl; [apply reachable_sent_v2, Hw|].
  intros q (s & sa & (Ho & Hx & _) & ->). cbv beta.
  split; [reflexivity|]. split; [apply limits_pageQuery_v2|].
  split; [|split].
  - rewrite pageQuery_order_by_v2. unfold Table2.obField. rewrite Hx, Ho.
    reflexivity.
  - rewrite pageQuery_constraints_v2. unfold Table2.constraints. rewrite Hx.
    unfold Table2.obField. rewrite Hx. cbn [truthy].
    repeat match goal with
           | |- context [if truthy ?x then _ else _] => destruct (truthy x)
           end; destruct sa; reflexivity.
  - rewrite predicates_pageQuery_v2. unfold Table2.constraints. rewrite Hx.
    cbn [truthy].
    repeat match goal with
           | |- context [if truthy ?x then _ else _] => destruct (truthy x)
           end; cbn; lia.
Qed.

Lemma findOption_found v :
  v ∈ Table2.SALA_VALUES ->
  exists o, Table2View.findOption v = Some o
            /\ o ∈ Table2View.SALA_OPTIONS /\ snd o = v.
Proof.
  intros Hv. unfold Table2View.findOption.
  destruct (List.find (fun o => String.eqb (snd o) v) Table2View.SALA_OPTIONS)
    as [o|] eqn:E.
  - apply List.find_some in E. destruct E as [Hin Heq].
    exists o. split; [reflexivity|]. split; [apply list_elem_of_In, Hin|].
    apply String.eqb_eq, Heq.
  - exfalso.
    change Table2.SALA_VALUES with (map snd Table2View.SALA_OPTIONS) in Hv.
    apply list_elem_of_In, in_map_iff in Hv. destruct Hv as (o & Ho & Hin).
    pose proof (List.find_none _ _ E o Hin) as Hn. cbv beta in Hn.
    rewrite Ho, String.eqb_refl in Hn. discriminate.
Qed.

(** X14. In the second version the sala and month inputs only ever hold
    the empty string or a value of their options, so the sala chip always
    shows the label of an option and never the raw value. *)
Theorem select_inputs_are_options_v2 (w : Table2.World) :
  Table2.reachable store w ->
  Table2.salaNum (Table2.ui w) ∈ "" :: Table2.SALA_VALUES
  /\ Table2.monthFilter (Table2.ui w) ∈ "" :: Table2.MONTHS
  /\ (Table2.salaNum (Table2.ui w) <> "" ->
      exists o, o ∈ Table2View.SALA_OPTIONS
                /\ snd o = Table2.salaNum (Table2.ui w)
                /\ Table2View.selectedSalaLabel (Table2.ui w) = fst o).
Proof.
  intros Hw. destruct (reachable_inputsFromControls w Hw) as (_ & _ & Hs & Hm).
  split; [exact Hs|]. split; [exact Hm|]. intros Hne.
  apply elem_of_cons in Hs. destruct Hs as [Hs|Hs]; [congruence|].
  destruct (findOption_found _ Hs) as (o & Hf & Hin & Hv).
  exists o. unfold Table2View.selectedSalaLabel. rewrite Hf. auto.
Qed.

End Reachable.

Lemma sent_queries_shape_witness :
  let store := MemStore.serve MemStore.sample in
  Forall (fun q =>
            q_collection q = "sentencias"
            /\ limits q = [50]
            /\ (length (start_positions q) <= 1)%nat
            /\ (length (predicates q) <= 2)%nat
            /\ exists f, order_by_fields q = [f]
                         /\ f ∈ ["sala_num"; "año"; "expediente"])
         (Table.sent (Table.handle store Table.ClickSiguiente (Table.mount store))).
Proof.
  intros store. apply (sent_queries_shape store), reachable_page2.
Defined.

Lemma prefix_filter_unreachable_v2_witness :
  let store := MemStore.serve MemStore.sample in
  let w := Table2.handle store Table2.ClickSiguiente (Table2.mount store) in
  Table2.expPrefix (Table2.ui w) = ""
  /\ Forall (fun q =>
               q_collection q = "sentencias"
               /\ limits q = [50]
               /\ order_by_fields q = ["year"]
               /\ predicatesOn "exp" (q_constraints q) = []
               /\ (length (predicates q) <= 3)%nat)
            (Table2.sent w).
Proof.
  intros store w. apply (prefix_filter_unreachable_v2 store), reachable_page2_v2.
Defined.

Lemma select_inputs_are_options_v2_witness :
  let store := MemStore.serve MemStore.sample in
  let w := Table2.handle store (Table2.ChangeSalaNum "18") (Table2.mount store) in
  Table2.salaNum (Table2.ui w) ∈ "" :: Table2.SALA_VALUES
  /\ Table2.monthFilter (Table2.ui w) ∈ "" :: Table2.MONTHS
  /\ (Table2.salaNum (Table2.ui w) <> "" ->
      exists o, o ∈ Table2View.SALA_OPTIONS
                /\ snd o = Table2.salaNum (Table2.ui w)
                /\ Table2View.selectedSalaLabel (Table2.ui w) = fst o).
Proof.
  intros store w. apply (select_inputs_are_options_v2 store).
  apply Table2.reach_event; [apply Table2.reach_mount|]. vm_compute. reflexivity.
Defined.

(** ** Stepping through pages *)

Lemma siguiente_step (store : Store) (w : Table.World) :
  Table.enabled Table.ClickSiguiente (Table.ui w) = true ->
  exists c,
    Table.nextCursor (Table.ui w) = Some c
    /\ Table.sent (Table.handle store Table.ClickSiguiente w)
       = Table.sent w ++ [Table.pageQuery (Table.ui w) (Some c)]
    /\ q_constraints (Table.pageQuery (Table.ui w) (Some c))
       = q_constraints (Table.pageQuery (Table.ui w) None) ++ [StartAfter c]
    /\ Table.cursorStack (Table.ui (Table.handle store Table.ClickSiguiente w))
       = Table.cursorStack (Table.ui w) ++ [c].
Proof.
  intros He. cbn [Table.enabled] in He. apply andb_true_iff in He.
  destruct He as [He _]. unfold Table.canNext in He.
  apply bool_decide_eq_true in He. destruct He as [c Hc].
  exists c. split; [exact Hc|]. cbn [Table.handle]. split; [|split].
  - rewrite onNext_unfold, Hc, fetchPage_sent. reflexivity.
  - rewrite !pageQuery_constraints, <- !app_assoc. reflexivity.
  - apply onNext_cursorStack, Hc.
Qed.

Lemma anterior_step (store : Store) (w : Table.World) :
  Table.enabled Table.ClickAnterior (Table.ui w) = true ->
  Table.sent (Table.handle store Table.ClickAnterior w)
  = Table.sent w
      ++ [Table.pageQuery (Table.ui w)
            (last (removelast (Table.cursorStack (Table.ui w))))]
  /\ Table.cursorStack (Table.ui (Table.handle store Table.ClickAnterior w))
     = removelast (Table.cursorStack (Table.ui w))
  /\ length (Table.cursorStack (Table.ui w))
     = S (length (Table.cursorStack (Table.ui (Table.handle store Table.ClickAnterior w)))).
Proof.
  intros He. cbn [Table.enabled] in He. apply andb_true_iff in He.
  destruct He as [He _]. unfold Table.canPrev in He.
  apply negb_true_iff in He. cbn [Table.handle].
  split; [|split].
  - unfold Table.onPrev. rewrite He. cbn [Table.sent]. apply fetchPage_sent.
  - apply onPrev_cursorStack.
  - rewrite onPrev_cursorStack.
    destruct (Table.cursorStack (Table.ui w)) as [|c l] using rev_ind;
      [discriminate|].
    rewrite removelast_last, length_app. cbn. lia.
Qed.

Lemma retried_next_step (down store : Store) (w : Table.World) c e docs :
  Table.nextCursor (Table.ui w) = Some c ->
  down (Table.pageQuery (Table.ui w) (Some c)) = inl e ->
  store (Table.pageQuery (Table.ui w) (Some c)) = inr docs ->
  let retried := Table.onNext store (Table.onNext down w) in
  Table.cursorStack (Table.ui retried) = Table.cursorStack (Table.ui w) ++ [c; c]
  /\ Table.rows (Table.ui retried) = map FirestoreService.toRow docs
  /\ Table.rows (Table.ui (Table.onPrev store retried))
     = map FirestoreService.toRow docs
  /\ Table.cursorStack (Table.ui (Table.onPrev store retried))
     = Table.cursorStack (Table.ui w) ++ [c].
Proof.
  intros Hc Hdown Hstore retried.
  destruct (failed_onNext down w c e Hc Hdown) as [Hs _].
  injection Hs as Hstack Hrows Hnext.
  assert (Hid : Table.pageQuery (Table.ui (Table.onNext down w)) (Some c)
                = Table.pageQuery (Table.ui w) (Some c))
    by apply pageQuery_identity, onNext_identity.
  assert (Hc' : Table.nextCursor (Table.ui (Table.onNext down w)) = Some c)
    by congruence.
  assert (Hst : Table.cursorStack (Table.ui retried)
                = Table.cursorStack (Table.ui w) ++ [c; c]).
  { unfold retried. rewrite (onNext_cursorStack store _ c Hc'), Hstack.
    rewrite <- app_assoc. reflexivity. }
  assert (Hq : Table.pageQuery (Table.ui retried) (Some c)
               = Table.pageQuery (Table.ui w) (Some c)).
  { unfold retried.
    rewrite (pageQuery_identity _ _ _ (onNext_identity store _)).
    exact Hid. }
  split; [exact Hst|]. split; [|split].
  - unfold retried. rewrite onNext_unfold, Hc'.
    match goal with
    | |- context [Table.fetchPage store false (Some c) ?w0] =>
        destruct (fetchPage_ok store false (Some c) w0 docs) as (Hr & _)
    end; [|exact Hr].
    rewrite <- Hstore. f_equal. exact Hid.
  - unfold Table.onPrev. rewrite Hst.
    replace (length (Table.cursorStack (Table.ui w) ++ [c; c]) =? 0)%nat with false
      by (rewrite length_app; cbn; symmetry; apply Nat.eqb_neq; lia).
    cbn [Table.ui Table.rows Table.setCursorStack].
    replace (Table.cursorStack (Table.ui w) ++ [c; c])
      with ((Table.cursorStack (Table.ui w) ++ [c]) ++ [c])
      by (rewrite <- app_assoc; reflexivity).
    rewrite removelast_last, last_snoc.
    destruct (fetchPage_ok store false (Some c) retried docs) as (Hr & _);
      [|exact Hr].
    rewrite Hq. exact Hstore.
  - rewrite onPrev_cursorStack, Hst.
    replace (Table.cursorStack (Table.ui w) ++ [c; c])
      with ((Table.cursorStack (Table.ui w) ++ [c]) ++ [c])
      by (rewrite <- app_assoc; reflexivity).
    apply removelast_last.
Qed.

Lemma siguiente_step_v2 (store : Store) (w : Table2.World) :
  Table2.enabled Table2.ClickSiguiente (Table2.ui w) = true ->
  exists c,
    Table2.nextCursor (Table2.ui w) = Some c
    /\ Table2.sent (Table2.handle store Table2.ClickSiguiente w)
       = Table2.sent w ++ [Table2.pageQuery (Table2.ui w) (Some c)]
    /\ q_constraints (Table2.pageQuery (Table2.ui w) (Some c))
       = q_constraints (Table2.pageQuery (Table2.ui w) None) ++ [StartAfter c]
    /\ Table2.cursorStack (Table2.ui (Table2.handle store Table2.ClickSiguiente w))
       = Table2.cursorStack (Table2.ui w) ++ [c].
Proof.
  intros He. cbn [Table2.enabled] in He. apply andb_true_iff in He.
  destruct He as [He _]. unfold Table2.canNext in He.
  apply bool_decide_eq_true in He. destruct He as [c Hc].
  exists c. split; [exact Hc|]. cbn [Table2.handle]. split; [|split].
  - rewrite onNext_unfold_v2, Hc, fetchPage_sent_v2. reflexivity.
  - rewrite !pageQuery_constraints_v2, <- !app_assoc. reflexivity.
  - apply onNext_cursorStack_v2, Hc.
Qed.

Lemma anterior_step_v2 (store : Store) (w : Table2.World) :
  Table2.enabled Table2.ClickAnterior (Table2.ui w) = true ->
  Table2.sent (Table2.handle store Table2.ClickAnterior w)
  = Table2.sent w
      ++ [Table2.pageQuery (Table2.ui w)
            (last (removelast (Table2.cursorStack (Table2.ui w))))]
  /\ Table2.cursorStack (Table2.ui (Table2.handle store Table2.ClickAnterior w))
     = removelast (Table2.cursorStack (Table2.ui w))
  /\ length (Table2.cursorStack (Table2.ui w))
     = S (length (Table2.cursorStack (Table2.ui (Table2.handle store Table2.ClickAnterior w)))).
Proof.
  intros He. cbn [Table2.enabled] in He. apply andb_true_iff in He.
  destruct He as [He _]. unfold Table2.canPrev in He.
  apply negb_true_iff in He. cbn [Table2.handle].
  split; [|split].
  - unfold Table2.onPrev. rewrite He. cbn [Table2.sent]. apply fetchPage_sent_v2.
  - apply onPrev_cursorStack_v2.
  - rewrite onPrev_cursorStack_v2.
    destruct (Table2.cursorStack (Table2.ui w)) as [|c l] using rev_ind;
      [discriminate|].
    rewrite removelast_last, length_app. cbn. lia.
Qed.

Lemma retried_next_step_v2 (down store : Store) (w : Table2.World) c e docs :
  Table2.nextCursor (Table2.ui w) = Some c ->
  down (Table2.pageQuery (Table2.ui w) (Some c)) = inl e ->
  store (Table2.pageQuery (Table2.ui w) (Some c)) = inr docs ->
  let retried := Table2.onNext store (Table2.onNext down w) in
  Table2.cursorStack (Table2.ui retried) = Table2.cursorStack (Table2.ui w) ++ [c; c]
  /\ Table2.rows (Table2.ui retried) = map FirestoreService.toRow docs
  /\ Table2.rows (Table2.ui (Table2.onPrev store retried))
     = map FirestoreService.toRow docs
  /\ Table2.cursorStack (Table2.ui (Table2.onPrev store retried))
     = Table2.cursorStack (Table2.ui w) ++ [c].
Proof.
  intros Hc Hdown Hstore retried.
  destruct (failed_onNext_v2 down w c e Hc Hdown) as [Hs _].
  injection Hs as Hstack Hrows Hnext.
  assert (Hid : Table2.pageQuery (Table2.ui (Table2.onNext down w)) (Some c)
                = Table2.pageQuery (Table2.ui w) (Some c))
    by apply pageQuery_identity_v2, onNext_identity_v2.
  assert (Hc' : Table2.nextCursor (Table2.ui (Table2.onNext down w)) = Some c)
    by congruence.
  assert (Hst : Table2.cursorStack (Table2.ui retried)
                = Table2.cursorStack (Table2.ui w) ++ [c; c]).
  { unfold retried. rewrite (onNext_cursorStack_v2 store _ c Hc'), Hstack.
    rewrite <- app_assoc. reflexivity. }
  assert (Hq : Table2.pageQuery (Table2.ui retried) (Some c)
               = Table2.pageQuery (Table2.ui w) (Some c)).
  { unfold retried.
    rewrite (pageQuery_identity_v2 _ _ _ (onNext_identity_v2 store _)).
    exact Hid. }
  split; [exact Hst|]. split; [|split].
  - unfold retried. rewrite onNext_unfold_v2, Hc'.
    match goal with
    | |- context [Table2.fetchPage store false (Some c) ?w0] =>
        destruct (fetchPage_ok_v2 store false (Some c) w0 docs) as (Hr & _)
    end; [|exact Hr].
    rewrite <- Hstore. f_equal. exact Hid.
  - unfold Table2.onPrev. rewrite Hst.
    replace (length (Table2.cursorStack (Table2.ui w) ++ [c; c]) =? 0)%nat with false
      by (rewrite length_app; cbn; symmetry; apply Nat.eqb_neq; lia).
    cbn [Table2.ui Table2.rows Table2.setCursorStack].
    replace (Table2.cursorStack (Table2.ui w) ++ [c; c])
      with ((Table2.cursorStack (Table2.ui w) ++ [c]) ++ [c])
      by (rewrite <- app_assoc; reflexivity).
    rewrite removelast_last, last_snoc.
    destruct (fetchPage_ok_v2 store false (Some c) retried docs) as (Hr & _);
      [|exact Hr].
    rewrite Hq. exact Hstore.
  - rewrite onPrev_cursorStack_v2, Hst.
    replace (Table2.cursorStack (Table2.ui w) ++ [c; c])
      with ((Table2.cursorStack (Table2.ui w) ++ [c]) ++ [c])
      by (rewrite <- app_assoc; reflexivity).
    apply removelast_last.
Qed.

Section Stepping.
Variable store : Store.

(** X9. When "Siguiente" is enabled it sends exactly one query, the
    first-page query of the current state followed by a start position
    at the shown next cursor, and pushes that cursor on the stack. *)
Theorem siguiente_request (w1 : Table.World) (w2 : Table2.World) :
  Table.enabled Table.ClickSiguiente (Table.ui w1) = true ->
  Table2.enabled Table2.ClickSiguiente (Table2.ui w2) = true ->
  (exists c,
      Table.nextCursor (Table.ui w1) = Some c
      /\ Table.sent (Table.handle store Table.ClickSiguiente w1)
         = Table.sent w1 ++ [Table.pageQuery (Table.ui w1) (Some c)]
      /\ q_constraints (Table.pageQuery (Table.ui w1) (Some c))
         = q_constraints (Table.pageQuery (Table.ui w1) None) ++ [StartAfter c]
      /\ Table.cursorStack (Table.ui (Table.handle store Table.ClickSiguiente w1))
         = Table.cursorStack (Table.ui w1) ++ [c])
  /\ (exists c,
      Table2.nextCursor (Table2.ui w2) = Some c
      /\ Table2.sent (Table2.handle store Table2.ClickSiguiente w2)
         = Table2.sent w2 ++ [Table2.pageQuery (Table2.ui w2) (Some c)]
      /\ q_constraints (Table2.pageQuery (Table2.ui w2) (Some c))
         = q_constraints (Table2.pageQuery (Table2.ui w2) None) ++ [StartAfter c]
      /\ Table2.cursorStack
           (Table2.ui (Table2.handle store Table2.ClickSiguiente w2))
         = Table2.cursorStack (Table2.ui w2) ++ [c]).
Proof.
  intros H1 H2. split.
  - apply siguiente_step, H1.
  - apply siguiente_step_v2, H2.
Qed.

(** X12. When "Anterior" is enabled it sends exactly one query, started
    after the cursor below the top of the stack (from the beginning when
    there is none), and removes the top of the stack. *)
Theorem anterior_request (w1 : Table.World) (w2 : Table2.World) :
  Table.enabled Table.ClickAnterior (Table.ui w1) = true ->
  Table2.enabled Table2.ClickAnterior (Table2.ui w2) = true ->
  (Table.sent (Table.handle store Table.ClickAnterior w1)
   = Table.sent w1
       ++ [Table.pageQuery (Table.ui w1)
             (last (removelast (Table.cursorStack (Table.ui w1))))]
   /\ Table.cursorStack (Table.ui (Table.handle store Table.ClickAnterior w1))
      = removelast (Table.cursorStack (Table.ui w1))
   /\ length (Table.cursorStack (Table.ui w1))
      = S (length (Table.cursorStack
                     (Table.ui (Table.handle store Table.ClickAnterior w1)))))
  /\ (Table2.sent (Table2.handle store Table2.ClickAnterior w2)
      = Table2.sent w2
          ++ [Table2.pageQuery (Table2.ui w2)
                (last (removelast (Table2.cursorStack (Table2.ui w2))))]
      /\ Table2.cursorStack
           (Table2.ui (Table2.handle store Table2.ClickAnterior w2))
         = removelast (Table2.cursorStack (Table2.ui w2))
      /\ length (Table2.cursorStack (Table2.ui w2))
         = S (length (Table2.cursorStack
                        (Table2.ui (Table2.handle store Table2.ClickAnterior w2))))).
Proof.
  intros H1 H2. split.
  - apply anterior_step, H1.
  - apply anterior_step_v2, H2.
Qed.

(** X15. A "next" whose query the store rejects, retried with success,
    leaves the same cursor twice on the stack: the page after the cursor
    is shown, and one "previous" shows that same page again.  Each
    version on its own. *)
Theorem retried_next_duplicates_cursor :
  (forall (down store0 : Store) (w : Table.World) (c : DocumentSnapshot)
          (e : Thrown) (docs : list DocumentSnapshot),
      Table.nextCursor (Table.ui w) = Some c ->
      down (Table.pageQuery (Table.ui w) (Some c)) = inl e ->
      store0 (Table.pageQuery (Table.ui w) (Some c)) = inr docs ->
      let retried := Table.onNext store0 (Table.onNext down w) in
      Table.cursorStack (Table.ui retried)
      = Table.cursorStack (Table.ui w) ++ [c; c]
      /\ Table.rows (Table.ui retried) = map FirestoreService.toRow docs
      /\ Table.rows (Table.ui (Table.onPrev store0 retried))
         = map FirestoreService.toRow docs
      /\ Table.cursorStack (Table.ui (Table.onPrev store0 retried))
         = Table.cursorStack (Table.ui w) ++ [c])
  /\ (forall (down store0 : Store) (w : Table2.World) (c : DocumentSnapshot)
             (e : Thrown) (docs : list DocumentSnapshot),
         Table2.nextCursor (Table2.ui w) = Some c ->
         down (Table2.pageQuery (Table2.ui w) (Some c)) = inl e ->
         store0 (Table2.pageQuery (Table2.ui w) (Some c)) = inr docs ->
         let retried := Table2.onNext store0 (Table2.onNext down w) in
         Table2.cursorStack (Table2.ui retried)
         = Table2.cursorStack (Table2.ui w) ++ [c; c]
         /\ Table2.rows (Table2.ui retried) = map FirestoreService.toRow docs
         /\ Table2.rows (Table2.ui (Table2.onPrev store0 retried))
            = map FirestoreService.toRow docs
         /\ Table2.cursorStack (Table2.ui (Table2.onPrev store0 retried))
            = Table2.cursorStack (Table2.ui w) ++ [c]).
Proof.
  split.
  - exact retried_next_step.
  - exact retried_next_step_v2.
Qed.

(** X13. Changing the sort direction: Table.tsx sends one first-page
    query when the chosen direction differs from the current one and
    nothing otherwise; the toggle of the second version always flips the
    direction, so it always sends one first-page query, ordered in the
    new direction, and two toggles restore the direction. *)
Theorem order_change_request
    (v : Direction) (w1 : Table.World) (w2 : Table2.World) :
  Table.sent (Table.handle store (Table.ChangeOrder v) w1)
  = Table.sent w1
      ++ (if bool_decide (v = Table.order (Table.ui w1)) then []
          else [Table.pageQuery (Table.setOrder v (Table.ui w1)) None])
  /\ (let s' := Table2.update Table2.ToggleOrder (Table2.ui w2) in
      Table2.order s' <> Table2.order (Table2.ui w2)
      /\ Table2.order (Table2.update Table2.ToggleOrder s')
         = Table2.order (Table2.ui w2)
      /\ Table2.sent (Table2.handle store Table2.ToggleOrder w2)
         = Table2.sent w2 ++ [Table2.pageQuery s' None]
      /\ OrderBy (Table2.obField (Table2.ui w2)) (Table2.order s')
         ∈ q_constraints (Table2.pageQuery s' None)).
Proof.
  split.
  - cbn [Table.handle Table.update Table.ui Table.sent].
    unfold Table.depsChanged, Table.identity. cbn.
    destruct (Table.order (Table.ui w1)), v; cbn;
      repeat case_bool_decide; try congruence; cbn;
      rewrite ?fetchPage_sent, ?app_nil_r; reflexivity.
  - cbv zeta. cbn [Table2.handle Table2.update Table2.ui Table2.sent].
    split; [|split; [|split]].
    + cbn. destruct (Table2.order (Table2.ui w2)); cbn; discriminate.
    + cbn. destruct (Table2.order (Table2.ui w2)); reflexivity.
    + unfold Table2.depsChanged, Table2.identity. cbn.
      destruct (Table2.order (Table2.ui w2)); cbn;
        repeat case_bool_decide; try congruence; cbn;
        rewrite fetchPage_sent_v2; reflexivity.
    + rewrite pageQuery_constraints_v2. apply elem_of_app. right.
      apply list_elem_of_here.
Qed.

(** X16. Removing the filters ("Sin filtro" or the badge in Table.tsx,
    "Limpiar todos" in the second version) leaves every input empty, and
    whatever it sends is a first-page query without predicates. *)
Theorem clearing_filters_request
    (ev : Table.Event) (w1 : Table.World) (w2 : Table2.World) :
  ev = Table.ClickSinFiltro \/ ev = Table.ClickBadge ->
  (let w' := Table.handle store ev w1 in
   Table.activeFilterType (Table.ui w') = None
   /\ Table.filledInputs (Table.ui w') = 0%nat
   /\ Table.constraints (Table.ui w') = []
   /\ exists new,
        Table.sent w' = Table.sent w1 ++ new
        /\ Forall (fun q => predicates q = [] /\ start_positions q = []) new)
  /\ (let w' := Table2.handle store Table2.ClickLimpiarTodos w2 in
      (forall k, Table2.input k (Table2.ui w') = "")
      /\ Table2.constraints (Table2.ui w') = []
      /\ exists new,
           Table2.sent w' = Table2.sent w2 ++ new
           /\ Forall (fun q => predicates q = [] /\ start_positions q = []) new).
Proof.
  intros Hev. split; cbv zeta.
  - pose proof (handle_identity store ev w1) as Hid.
    assert (Hu : Table.update ev (Table.ui w1)
                 = Table.setExpPrefix ""
                     (Table.setSalaNum ""
                        (Table.setYear ""
                           (Table.setActiveFilterType None (Table.ui w1)))))
      by (destruct Hev; subst ev; reflexivity).
    rewrite Hu in Hid. unfold Table.identity in Hid. cbn in Hid.
    injection Hid as _ _ Ht Hy Hs He.
    split; [exact Ht|]. split; [unfold Table.filledInputs; rewrite Hy, Hs, He; reflexivity|].
    split; [unfold Table.constraints, Table.filter_is; rewrite Ht; reflexivity|].
    destruct (handle_sent store ev w1) as [sas Hsent].
    destruct Hev; subst ev; cbn [Table.handle] in *;
      match goal with
      | |- context [if ?b then _ else _] => destruct b
      end;
      [ eexists [_]; rewrite fetchPage_sent; split; [reflexivity|]
      | exists []; split; [cbn; rewrite app_nil_r; reflexivity|constructor]
      | eexists [_]; rewrite fetchPage_sent; split; [reflexivity|]
      | exists []; split; [cbn; rewrite app_nil_r; reflexivity|constructor] ];
      (constructor; [|constructor]);
      rewrite predicates_pageQuery, pageQuery_start; split; reflexivity.
  - pose proof (handle_queryInputs_v2 store Table2.ClickLimpiarTodos w2) as Hid.
    remember (Table2.handle store Table2.ClickLimpiarTodos w2) as w' eqn:Ew.
    unfold Table2.queryInputs in Hid. cbn in Hid.
    injection Hid as _ _ Hy Hs Hm He.
    split; [intros []; cbn [Table2.input]; assumption|].
    split; [unfold Table2.constraints; rewrite Hy, Hs, Hm, He; reflexivity|].
    subst w'. cbn [Table2.handle].
    match goal with
    | |- context [if ?b then _ else _] => destruct b
    end;
      [ eexists [_]; rewrite fetchPage_sent_v2; split; [reflexivity|]
      | exists []; split; [cbn; rewrite app_nil_r; reflexivity|constructor] ].
    constructor; [|constructor].
    rewrite predicates_pageQuery_v2, pageQuery_start_v2. split; reflexivity.
Qed.

End Stepping.

Lemma siguiente_request_witness :
  let store := MemStore.serve MemStore.sample in
  let w1 := Table.handle store Table.ClickSiguiente (Table.mount store) in
  let w2 := Table2.handle store Table2.ClickSiguiente (Table2.mount store) in
  length (Table.cursorStack (Table.ui (Table.handle store Table.ClickSiguiente w1)))
  = S (length (Table.cursorStack (Table.ui w1)))
  /\ length (Table2.cursorStack
               (Table2.ui (Table2.handle store Table2.ClickSiguiente w2)))
     = S (length (Table2.cursorStack (Table2.ui w2))).
Proof.
  intros store w1 w2.
  destruct (siguiente_request store w1 w2)
    as [(c1 & _ & _ & _ & H1) (c2 & _ & _ & _ & H2)].
  - vm_compute. reflexivity.
  - vm_compute. reflexivity.
  - clearbody w1 w2. rewrite H1, H2, !length_app. cbn. lia.
Defined.

Lemma anterior_request_witness :
  let store := MemStore.serve MemStore.sample in
  let w1 := Table.handle store Table.ClickSiguiente (Table.mount store) in
  let w2 := Table2.handle store Table2.ClickSiguiente (Table2.mount store) in
  length (Table.cursorStack (Table.ui w1))
  = S (length (Table.cursorStack
                 (Table.ui (Table.handle store Table.ClickAnterior w1))))
  /\ length (Table2.cursorStack (Table2.ui w2))
     = S (length (Table2.cursorStack
                    (Table2.ui (Table2.handle store Table2.ClickAnterior w2)))).
Proof.
  intros store w1 w2.
  destruct (anterior_request store w1 w2) as [(_ & _ & H1) (_ & _ & H2)].
  - vm_compute. reflexivity.
  - vm_compute. reflexivity.
  - split; assumption.
Defined.

Lemma retried_next_duplicates_cursor_witness :
  let store := MemStore.serve MemStore.sample in
  let down := MemStore.serveUnless (fun _ => true)
                (ErrorInstance "unavailable") [] in
  let r1 := Table.onNext store (Table.onNext down (Table.mount store)) in
  let r2 := Table2.onNext store (Table2.onNext down (Table2.mount store)) in
  (Table.cursorStack (Table.ui r1)
   = Table.cursorStack (Table.ui (Table.mount store))
       ++ [MemStore.decision 32; MemStore.decision 32]
   /\ Table.rows (Table.ui (Table.onPrev store r1)) = Table.rows (Table.ui r1))
  /\ (Table2.cursorStack (Table2.ui r2)
      = Table2.cursorStack (Table2.ui (Table2.mount store))
          ++ [MemStore.decision 79; MemStore.decision 79]
      /\ Table2.rows (Table2.ui (Table2.onPrev store r2))
         = Table2.rows (Table2.ui r2)).
Proof.
  intros store down r1 r2. split.
  - edestruct (proj1 retried_next_duplicates_cursor down store
                 (Table.mount store) (MemStore.decision 32))
      as (A & B & C & _).
    + vm_compute. reflexivity.
    + reflexivity.
    + reflexivity.
    + split; [exact A|].
      transitivity (map FirestoreService.toRow
                      (MemStore.run MemStore.sample
                         (Table.pageQuery (Table.ui (Table.mount store))
                            (Some (MemStore.decision 32)))));
        [exact C|symmetry; exact B].
  - edestruct (proj2 retried_next_duplicates_cursor down store
                 (Table2.mount store) (MemStore.decision 79))
      as (A & B & C & _).
    + vm_compute. reflexivity.
    + reflexivity.
    + reflexivity.
    + split; [exact A|].
      transitivity (map FirestoreService.toRow
                      (MemStore.run MemStore.sample
                         (Table2.pageQuery (Table2.ui (Table2.mount store))
                            (Some (MemStore.decision 79)))));
        [exact C|symmetry; exact B].
Defined.

Lemma clearing_filters_request_witness :
  let store := MemStore.serve MemStore.sample in
  let w1 := Table.handle store (Table.ChangeYear "2009")
              (Table.handle store Table.ClickYear (Table.mount store)) in
  let w2 := Table2.handle store (Table2.ChangeYear "2009") (Table2.mount store) in
  Table.constraints (Table.ui (Table.handle store Table.ClickSinFiltro w1)) = []
  /\ Table2.constraints
       (Table2.ui (Table2.handle store Table2.ClickLimpiarTodos w2)) = [].
Proof.
  intros store w1 w2.
  destruct (clearing_filters_request store Table.ClickSinFiltro w1 w2)
    as [(_ & _ & H1 & _) (_ & H2 & _)].
  - left. reflexivity.
  - split; assumption.
Defined.

(** ** The page bound *)

Lemma fetchPage_rows_bound (store : Store) reset sa (w : Table.World) :
  (forall q docs n, store q = inr docs -> n ∈ limits q -> 0 <= n ->
                    Z.of_nat (length docs) <= n) ->
  (length (Table.rows (Table.ui w)) <= 50)%nat ->
  (length (Table.rows (Table.ui (Table.fetchPage store reset sa w))) <= 50)%nat.
Proof.
  intros Hlim Hw.
  destruct (store (Table.pageQuery (Table.ui w) sa)) as [e|docs] eqn:Hq.
  - destruct (fetchPage_failed store reset sa w e Hq) as [Hs _].
    injection Hs as _ Hr _. rewrite Hr. exact Hw.
  - destruct (fetchPage_ok store reset sa w docs Hq) as (Hr & _).
    rewrite Hr, length_map.
    assert (Z.of_nat (length docs) <= 50); [|lia].
    apply (Hlim _ _ _ Hq); [|lia]. rewrite limits_pageQuery. apply list_elem_of_here.
Qed.

Lemma reachable_rows_bound (store : Store) (w : Table.World) :
  (forall q docs n, store q = inr docs -> n ∈ limits q -> 0 <= n ->
                    Z.of_nat (length docs) <= n) ->
  Table.reachable store w -> (length (Table.rows (Table.ui w)) <= 50)%nat.
Proof.
  intros Hlim. induction 1 as [|ev w Hw IH He].
  - apply fetchPage_rows_bound; [exact Hlim|cbn; lia].
  - destruct (update_keeps ev (Table.ui w)) as (Er & _).
    destruct (handle_step store ev w)
      as [[-> _]|[->|[(c & _ & _ & ->)|(_ & _ & ->)]]].
    + cbn [Table.ui]. rewrite Er. exact IH.
    + apply fetchPage_rows_bound; [exact Hlim|]. cbn [Table.ui]. rewrite Er. exact IH.
    + apply fetchPage_rows_bound; [exact Hlim|exact IH].
    + cbn [Table.ui Table.rows Table.setCursorStack].
      apply fetchPage_rows_bound; [exact Hlim|exact IH].
Qed.

Lemma fetchPage_rows_bound_v2 (store : Store) reset sa (w : Table2.World) :
  (forall q docs n, store q = inr docs -> n ∈ limits q -> 0 <= n ->
                    Z.of_nat (length docs) <= n) ->
  (length (Table2.rows (Table2.ui w)) <= 50)%nat ->
  (length (Table2.rows (Table2.ui (Table2.fetchPage store reset sa w))) <= 50)%nat.
Proof.
  intros Hlim Hw.
  destruct (store (Table2.pageQuery (Table2.ui w) sa)) as [e|docs] eqn:Hq.
  - destruct (fetchPage_failed_v2 store reset sa w e Hq) as [Hs _].
    injection Hs as _ Hr _. rewrite Hr. exact Hw.
  - destruct (fetchPage_ok_v2 store reset sa w docs Hq) as (Hr & _).
    rewrite Hr, length_map.
    assert (Z.of_nat (length docs) <= 50); [|lia].
    apply (Hlim _ _ _ Hq); [|lia]. rewrite limits_pageQuery_v2. apply list_elem_of_here.
Qed.

Lemma reachable_rows_bound_v2 (store : Store) (w : Table2.World) :
  (forall q docs n, store q = inr docs -> n ∈ limits q -> 0 <= n ->
                    Z.of_nat (length docs) <= n) ->
  Table2.reachable store w -> (length (Table2.rows (Table2.ui w)) <= 50)%nat.
Proof.
  intros Hlim. induction 1 as [|ev w Hw IH He].
  - apply fetchPage_rows_bound_v2; [exact Hlim|cbn; lia].
  - destruct (update_keeps_v2 ev (Table2.ui w)) as (Er & _).
    destruct (handle_step_v2 store ev w)
      as [[-> _]|[->|[(c & _ & _ & ->)|(_ & _ & ->)]]].
    + cbn [Table2.ui]. rewrite Er. exact IH.
    + apply fetchPage_rows_bound_v2; [exact Hlim|]. cbn [Table2.ui]. rewrite Er. exact IH.
    + apply fetchPage_rows_bound_v2; [exact Hlim|exact IH].
    + cbn [Table2.ui Table2.rows Table2.setCursorStack].
      apply fetchPage_rows_bound_v2; [exact Hlim|exact IH].
Qed.

(** X17. With a store that returns at most [limit] documents, no
    reachable state shows more than 50 rows. *)
Theorem rows_within_page_size
    (store : Store) (w1 : Table.World) (w2 : Table2.World) :
  (forall q docs n, store q = inr docs -> n ∈ limits q -> 0 <= n ->
                    Z.of_nat (length docs) <= n) ->
  Table.reachable store w1 ->
  Table2.reachable store w2 ->
  (length (Table.rows (Table.ui w1)) <= 50)%nat
  /\ (length (Table2.rows (Table2.ui w2)) <= 50)%nat.
Proof.
  intros Hlim H1 H2. split.
  - apply (reachable_rows_bound store); assumption.
  - apply (reachable_rows_bound_v2 store); assumption.
Qed.

Lemma run_within_limit (docs : list DocumentSnapshot) (q : Query) (n : Z) :
  n ∈ limits q -> Z.of_nat (length (MemStore.run docs q)) <= Z.max n 0.
Proof.
  unfold MemStore.run, limits.
  generalize (foldl MemStore.apply_start
                (foldl MemStore.apply_order
                   (List.filter
                      (fun d => forallb (MemStore.satisfies d) (q_constraints q))
                      docs)
                   (q_constraints q))
                (q_constraints q)).
  induction (q_constraints q) as [|c cs IH] using rev_ind; intros l Hn.
  - cbn in Hn. apply elem_of_nil in Hn. contradiction.
  - rewrite foldl_app. cbn [foldl].
    rewrite omap_app in Hn. apply elem_of_app in Hn. destruct Hn as [Hn|Hn].
    + specialize (IH l Hn). destruct c; cbn [MemStore.apply_limit]; try exact IH.
      rewrite length_take. lia.
    + destruct c; cbn in Hn; try (apply elem_of_nil in Hn; contradiction).
      apply list_elem_of_singleton in Hn. subst n0.
      cbn [MemStore.apply_limit]. rewrite length_take. lia.
Qed.

Lemma rows_within_page_size_witness :
  let store := MemStore.serve MemStore.sample in
  (length (Table.rows
             (Table.ui (Table.handle store Table.ClickSiguiente
                          (Table.mount store)))) <= 50)%nat
  /\ (length (Table2.rows
                (Table2.ui (Table2.handle store Table2.ClickSiguiente
                              (Table2.mount store)))) <= 50)%nat.
Proof.
  intros store. apply (rows_within_page_size store);
    [|apply reachable_page2|apply reachable_page2_v2].
  intros q docs n Hq Hn Hpos. injection Hq as <-.
  pose proof (run_within_limit MemStore.sample q n Hn) as H. lia.
Defined.

(** ** With requests in flight: src/components/Table.tsx *)

Section TableAsyncSteps.
Import Table TableAsync.
Variable store : Store.

Lemma returned_mono l l' c :
  (forall q, q ∈ l -> q ∈ l') -> returned store l c -> returned store l' c.
Proof.
  intros H (q & docs & Hq & R). exists q, docs. split; [apply H, Hq|exact R].
Qed.

Lemma pageFromLog_cursor w c :
  pageFromLog store w -> nextCursor (state w) = Some c ->
  returned store (log w) c.
Proof.
  intros [[_ Hn]|(q & docs & Hq & Hs & _ & Hn)] Hc; [congruence|].
  rewrite Hn, pageOf_nextCursor in Hc.
  destruct (last docs) as [d|] eqn:E; [|discriminate].
  destruct (Z.eqb_spec (Z.of_nat (length docs)) PAGE_SIZE); [|discriminate].
  injection Hc as ->. exists q, docs. auto.
Qed.

Lemma Forall_removelast (P : DocumentSnapshot -> Prop) l :
  Forall P l -> Forall P (removelast l).
Proof.
  induction 1 as [|c l Hc Hl IH]; [constructor|].
  destruct l; [constructor|]. cbn [removelast] in *. constructor; assumption.
Qed.

(** A step that keeps rows and next cursor and sets no error. *)
Lemma invariant_change w w' :
  invariant store w ->
  (forall q, q ∈ log w -> q ∈ log w') ->
  waitingSent w' ->
  (waiting w' = [] -> loading (state w') = false) ->
  (err (state w') = err (state w) \/ err (state w') = None) ->
  rows (state w') = rows (state w) ->
  nextCursor (state w') = nextCursor (state w) ->
  Forall (returned store (log w')) (cursorStack (state w')) ->
  invariant store w'.
Proof.
  intros (Hw & [Hl He] & Hp & Hs) Hlog Hw' Hl' He' Hr Hn Hs'.
  split; [exact Hw'|]. split; [split; [exact Hl'|]|split; [|exact Hs']].
  - intros m Hm. destruct He' as [E|E]; [|congruence]. rewrite E in Hm.
    destruct (He m Hm) as (q & e & Hq & R).
    exists q, e. split; [apply Hlog, Hq|exact R].
  - destruct Hp as [[A B]|(q & docs & Hq & R1 & R2 & R3)].
    + left. split; congruence.
    + right. exists q, docs.
      split; [apply Hlog, Hq|]. split; [exact R1|]. split; congruence.
Qed.

Lemma invariant_begin reset sa w :
  (reset = true -> sa = None) ->
  invariant store w -> invariant store (fetchPage_begin reset sa w).
Proof.
  intros Hsa Hi. apply (invariant_change w); try exact Hi.
  - intros q Hq. cbn. apply elem_of_app. left. exact Hq.
  - unfold waitingSent. cbn [waiting log fetchPage_begin].
    apply Forall_app. split.
    + eapply Forall_impl; [apply Hi|]. intros p [A B].
      split; [apply elem_of_app; left; exact A|exact B].
    + constructor; [|constructor]. cbn.
      split; [apply elem_of_app; right; apply list_elem_of_here|exact Hsa].
  - cbn. intros H. destruct (waiting w); discriminate.
  - right. reflexivity.
  - reflexivity.
  - reflexivity.
  - cbn. eapply Forall_impl; [apply Hi|]. intros c.
    apply returned_mono. intros q Hq. apply elem_of_app. left. exact Hq.
Qed.

Lemma invariant_update ev w :
  invariant store w ->
  invariant store {| state := update ev (state w);
                     log := log w; waiting := waiting w |}.
Proof.
  intros Hi.
  destruct (update_keeps ev (state w)) as (Er & Es & En & El & Ee & _).
  apply (invariant_change w); cbn [state log waiting]; try exact Hi; auto.
  - apply Hi.
  - rewrite El. apply Hi.
  - rewrite Es. apply Hi.
Qed.

Lemma invariant_stack l w :
  invariant store w ->
  Forall (returned store (log w)) l ->
  invariant store {| state := setCursorStack l (state w);
                     log := log w; waiting := waiting w |}.
Proof.
  intros Hi Hl.
  apply (invariant_change w); cbn [state log waiting]; try exact Hi; auto.
  - apply Hi.
  - apply Hi.
Qed.

Lemma invariant_answer i p w :
  invariant store w -> waiting w !! i = Some p ->
  invariant store {| state := fetchPage_end store p (state w);
                     log := log w; waiting := delete i (waiting w) |}.
Proof.
  intros (Hw & [Hl He] & Hp & Hs) Hi.
  destruct (proj1 (Forall_lookup _ _) Hw i p Hi) as [Hq Hreset].
  assert (Hw' : waitingSent {| state := fetchPage_end store p (state w);
                               log := log w;
                               waiting := delete i (waiting w) |})
    by (apply Forall_delete, Hw).
  unfold fetchPage_end.
  destruct (store (p_query p)) as [e|docs] eqn:E.
  - split; [exact Hw'|]. split; [split; [reflexivity|]|split].
    + cbn. intros m Hm. injection Hm as <-. exists (p_query p), e. auto.
    + exact Hp.
    + exact Hs.
  - split; [exact Hw'|]. split; [split|split].
    + destruct (p_reset p); reflexivity.
    + intros m Hm. apply He. rewrite <- Hm. destruct (p_reset p); reflexivity.
    + right. exists (p_query p), docs. cbn [state log].
      split; [exact Hq|]. split; [exact E|].
      destruct (p_reset p); split; reflexivity.
    + cbn [state log]. destruct (p_reset p) eqn:R; [|exact Hs].
      rewrite (Hreset eq_refl). constructor.
Qed.

(** What using a control does before any answer arrives. *)
Lemma use_step ev w :
  handle store (Use ev) w
  = {| state := update ev (state w); log := log w; waiting := waiting w |}
  \/ handle store (Use ev) w
     = fetchPage_begin true None
         {| state := update ev (state w); log := log w; waiting := waiting w |}
  \/ (exists c,
        nextCursor (state w) = Some c
        /\ handle store (Use ev) w
           = fetchPage_begin false (Some c)
               {| state := setCursorStack (cursorStack (state w) ++ [c]) (state w);
                  log := log w; waiting := waiting w |})
  \/ handle store (Use ev) w
     = {| state :=
            setCursorStack (removelast (cursorStack (state w)))
              (state (fetchPage_begin false
                        (last (removelast (cursorStack (state w)))) w));
          log :=
            log (fetchPage_begin false
                   (last (removelast (cursorStack (state w)))) w);
          waiting :=
            waiting (fetchPage_begin false
                       (last (removelast (cursorStack (state w)))) w) |}.
Proof.
  destruct w as [s l wt].
  destruct ev; cbn [handle update state log waiting];
    try (match goal with
         | |- context [if depsChanged ?a ?b then _ else _] =>
             destruct (depsChanged a b)
         end; [right; left; reflexivity|left; reflexivity]).
  - right; left; reflexivity.
  - unfold onPrev. cbn [state log waiting].
    destruct (length (cursorStack s) =? 0)%nat.
    + left. reflexivity.
    + right; right; right. reflexivity.
  - unfold onNext. cbn [state log waiting].
    destruct (nextCursor s) as [c|] eqn:Hc.
    + right; right; left. exists c. split; reflexivity.
    + left. reflexivity.
Qed.

Lemma mount_invariant : invariant store mount.
Proof.
  apply invariant_begin; [reflexivity|].
  split; [constructor|]. split; [split; [reflexivity|discriminate]|].
  split; [left; split; reflexivity|constructor].
Qed.

Lemma reachable_invariant w : reachable store w -> invariant store w.
Proof.
  induction 1 as [|st w Hw IH He]; [apply mount_invariant|].
  destruct st as [ev|i].
  - destruct (use_step ev w) as [->|[->|[(c & Hc & ->)| ->]]].
    + apply invariant_update, IH.
    + apply invariant_begin; [reflexivity|]. apply invariant_update, IH.
    + apply invariant_begin; [discriminate|].
      apply invariant_stack; [exact IH|].
      apply Forall_app. split; [apply IH|].
      constructor; [|constructor].
      apply pageFromLog_cursor; [apply IH|exact Hc].
    + apply (invariant_stack _
               (fetchPage_begin false
                  (last (removelast (cursorStack (state w)))) w)).
      * apply invariant_begin; [discriminate|exact IH].
      * apply Forall_removelast.
        apply (invariant_begin false
                 (last (removelast (cursorStack (state w)))) w);
          [discriminate|exact IH].
  - cbn [handle]. cbn [enabled] in He. apply bool_decide_eq_true in He.
    destruct (lookup_lt_is_Some_2 _ _ He) as [p Hp]. rewrite Hp.
    apply invariant_answer; assumption.
Qed.

(** The sequential [fetchPage] is its first half followed at once by
    its second half. *)
Lemma fetchPage_split reset sa s l :
  Table.fetchPage store reset sa {| Table.ui := s; Table.sent := l |}
  = {| Table.ui :=
         fetchPage_end store
           {| p_reset := reset; p_startAfter := sa;
              p_query := Table.pageQuery s sa |}
           (setErr None (setLoading true s));
       Table.sent := l ++ [Table.pageQuery s sa] |}.
Proof.
  rewrite fetchPage_unfold. unfold fetchPage_end. cbn.
  destruct (store (Table.pageQuery s sa)); destruct reset; reflexivity.
Qed.

Lemma use_refines ev w :
  waiting w = [] ->
  (waiting (handle store (Use ev) w) = []
   /\ settled (handle store (Use ev) w) = Table.handle store ev (settled w))
  \/ exists p,
       waiting (handle store (Use ev) w) = [p]
       /\ {| Table.ui := fetchPage_end store p (state (handle store (Use ev) w));
             Table.sent := log (handle store (Use ev) w) |}
          = Table.handle store ev (settled w).
Proof.
  destruct w as [s l wt]. cbn [waiting]. intros ->. unfold settled.
  destruct ev; cbn [handle Table.handle update state log waiting
                      Table.ui Table.sent];
    try (match goal with
         | |- context [if depsChanged ?a ?b then _ else _] =>
             destruct (depsChanged a b)
         end;
         [ right; eexists; split; [reflexivity|];
           symmetry; apply fetchPage_split
         | left; split; reflexivity ]).
  - right. eexists. split; [reflexivity|].
    symmetry. apply fetchPage_split.
  - unfold onPrev, Table.onPrev. cbn [state log waiting Table.ui Table.sent].
    destruct (length (cursorStack s) =? 0)%nat.
    + left. split; reflexivity.
    + right. eexists. split; [reflexivity|].
      rewrite fetchPage_split. unfold fetchPage_end. cbn.
      destruct (store _); reflexivity.
  - unfold onNext, Table.onNext. cbn [state log waiting Table.ui Table.sent].
    destruct (nextCursor s) as [c|].
    + right. eexists. split; [reflexivity|].
      symmetry. apply fetchPage_split.
    + left. split; reflexivity.
Qed.

(** Used in single flight, the component goes through the states of the
    sequential model. *)
Lemma singleFlight_refines w :
  singleFlight store w ->
  match waiting w with
  | [] => Table.reachable store (settled w)
  | [p] => Table.reachable store
             {| Table.ui := fetchPage_end store p (state w); Table.sent := log w |}
  | _ => False
  end.
Proof.
  induction 1 as [|ev w Hw IH Hn He|i w Hw IH He].
  - pose proof (Table.reach_mount store) as R. unfold Table.mount in R.
    rewrite fetchPage_split in R. exact R.
  - rewrite Hn in IH.
    destruct (use_refines ev w Hn) as [[Hw' E]|(p & Hw' & E)];
      rewrite Hw'; rewrite E; apply Table.reach_event; assumption.
  - cbn [enabled] in He. apply bool_decide_eq_true in He.
    destruct (waiting w) as [|p [|p' wt]] eqn:Ew; cbn [length] in He;
      [lia| |contradiction].
    destruct i as [|i]; [|lia].
    cbn [handle]. rewrite Ew. cbn. exact IH.
Qed.

Lemma singleFlight_settled w :
  singleFlight store w -> waiting w = [] -> Table.reachable store (settled w).
Proof.
  intros H Hw. pose proof (singleFlight_refines w H) as R.
  rewrite Hw in R. exact R.
Qed.

End TableAsyncSteps.

(** ** With requests in flight: src/unnamed/part_000 *)

Section Table2AsyncSteps.
Import Table2 Table2Async.
Variable store : Store.

Lemma returned_mono_v2 l l' c :
  (forall q, q ∈ l -> q ∈ l') -> returned store l c -> returned store l' c.
Proof.
  intros H (q & docs & Hq & R). exists q, docs. split; [apply H, Hq|exact R].
Qed.

Lemma pageFromLog_cursor_v2 w c :
  pageFromLog store w -> nextCursor (state w) = Some c ->
  returned store (log w) c.
Proof.
  intros [[_ Hn]|(q & docs & Hq & Hs & _ & Hn)] Hc; [congruence|].
  rewrite Hn, pageOf_nextCursor in Hc.
  destruct (last docs) as [d|] eqn:E; [|discriminate].
  destruct (Z.eqb_spec (Z.of_nat (length docs)) PAGE_SIZE); [|discriminate].
  injection Hc as ->. exists q, docs. auto.
Qed.

Lemma Forall_removelast_v2 (P : DocumentSnapshot -> Prop) l :
  Forall P l -> Forall P (removelast l).
Proof.
  induction 1 as [|c l Hc Hl IH]; [constructor|].
  destruct l; [constructor|]. cbn [removelast] in *. constructor; assumption.
Qed.

(** A step that keeps rows and next cursor and sets no error. *)
Lemma invariant_change_v2 w w' :
  invariant store w ->
  (forall q, q ∈ log w -> q ∈ log w') ->
  waitingSent w' ->
  (waiting w' = [] -> loading (state w') = false) ->
  (err (state w') = err (state w) \/ err (state w') = None) ->
  rows (state w') = rows (state w) ->
  nextCursor (state w') = nextCursor (state w) ->
  Forall (returned store (log w')) (cursorStack (state w')) ->
  invariant store w'.
Proof.
  intros (Hw & [Hl He] & Hp & Hs) Hlog Hw' Hl' He' Hr Hn Hs'.
  split; [exact Hw'|]. split; [split; [exact Hl'|]|split; [|exact Hs']].
  - intros m Hm. destruct He' as [E|E]; [|congruence]. rewrite E in Hm.
    destruct (He m Hm) as (q & e & Hq & R).
    exists q, e. split; [apply Hlog, Hq|exact R].
  - destruct Hp as [[A B]|(q & docs & Hq & R1 & R2 & R3)].
    + left. split; congruence.
    + right. exists q, docs.
      split; [apply Hlog, Hq|]. split; [exact R1|]. split; congruence.
Qed.

Lemma invariant_begin_v2 reset sa w :
  (reset = true -> sa = None) ->
  invariant store w -> invariant store (fetchPage_begin reset sa w).
Proof.
  intros Hsa Hi. apply (invariant_change_v2 w); try exact Hi.
  - intros q Hq. cbn. apply elem_of_app. left. exact Hq.
  - unfold waitingSent. cbn [waiting log fetchPage_begin].
    apply Forall_app. split.
    + eapply Forall_impl; [apply Hi|]. intros p [A B].
      split; [apply elem_of_app; left; exact A|exact B].
    + constructor; [|constructor]. cbn.
      split; [apply elem_of_app; right; apply list_elem_of_here|exact Hsa].
  - cbn. intros H. destruct (waiting w); discriminate.
  - right. reflexivity.
  - reflexivity.
  - reflexivity.
  - cbn. eapply Forall_impl; [apply Hi|]. intros c.
    apply returned_mono_v2. intros q Hq. apply elem_of_app. left. exact Hq.
Qed.

Lemma invariant_update_v2 ev w :
  invariant store w ->
  invariant store {| state := update ev (state w);
                     log := log w; waiting := waiting w |}.
Proof.
  intros Hi.
  destruct (update_keeps_v2 ev (state w)) as (Er & Es & En & El & Ee & _).
  apply (invariant_change_v2 w); cbn [state log waiting]; try exact Hi; auto.
  - apply Hi.
  - rewrite El. apply Hi.
  - rewrite Es. apply Hi.
Qed.

Lemma invariant_stack_v2 l w :
  invariant store w ->
  Forall (returned store (log w)) l ->
  invariant store {| state := setCursorStack l (state w);
                     log := log w; waiting := waiting w |}.
Proof.
  intros Hi Hl.
  apply (invariant_change_v2 w); cbn [state log waiting]; try exact Hi; auto.
  - apply Hi.
  - apply Hi.
Qed.

Lemma invariant_answer_v2 i p w :
  invariant store w -> waiting w !! i = Some p ->
  invariant store {| state := fetchPage_end store p (state w);
                     log := log w; waiting := delete i (waiting w) |}.
Proof.
  intros (Hw & [Hl He] & Hp & Hs) Hi.
  destruct (proj1 (Forall_lookup _ _) Hw i p Hi) as [Hq Hreset].
  assert (Hw' : waitingSent {| state := fetchPage_end store p (state w);
                               log := log w;
                               waiting := delete i (waiting w) |})
    by (apply Forall_delete, Hw).
  unfold fetchPage_end.
  destruct (store (p_query p)) as [e|docs] eqn:E.
  - split; [exact Hw'|]. split; [split; [reflexivity|]|split].
    + cbn. intros m Hm. injection Hm as <-. exists (p_query p), e. auto.
    + exact Hp.
    + exact Hs.
  - split; [exact Hw'|]. split; [split|split].
    + destruct (p_reset p); reflexivity.
    + intros m Hm. apply He. rewrite <- Hm. destruct (p_reset p); reflexivity.
    + right. exists (p_query p), docs. cbn [state log].
      split; [exact Hq|]. split; [exact E|].
      destruct (p_reset p); split; reflexivity.
    + cbn [state log]. destruct (p_reset p) eqn:R; [|exact Hs].
      rewrite (Hreset eq_refl). constructor.
Qed.

(** What using a control does before any answer arrives. *)
Lemma use_step_v2 ev w :
  handle store (Use ev) w
  = {| state := update ev (state w); log := log w; waiting := waiting w |}
  \/ handle store (Use ev) w
     = fetchPage_begin true None
         {| state := update ev (state w); log := log w; waiting := waiting w |}
  \/ (exists c,
        nextCursor (state w) = Some c
        /\ handle store (Use ev) w
           = fetchPage_begin false (Some c)
               {| state := setCursorStack (cursorStack (state w) ++ [c]) (state w);
                  log := log w; waiting := waiting w |})
  \/ handle store (Use ev) w
     = {| state :=
            setCursorStack (removelast (cursorStack (state w)))
              (state (fetchPage_begin false
                        (last (removelast (cursorStack (state w)))) w));
          log :=
            log (fetchPage_begin false
                   (last (removelast (cursorStack (state w)))) w);
          waiting :=
            waiting (fetchPage_begin false
                       (last (removelast (cursorStack (state w)))) w) |}.
Proof.
  destruct w as [s l wt].
  destruct ev; cbn [handle update state log waiting];
    try (match goal with
         | |- context [if depsChanged ?a ?b then _ else _] =>
             destruct (depsChanged a b)
         end; [right; left; reflexivity|left; reflexivity]).
  - unfold onPrev. cbn [state log waiting].
    destruct (length (cursorStack s) =? 0)%nat.
    + left. reflexivity.
    + right; right; right. reflexivity.
  - unfold onNext. cbn [state log waiting].
    destruct (nextCursor s) as [c|] eqn:Hc.
    + right; right; left. exists c. split; reflexivity.
    + left. reflexivity.
Qed.

Lemma mount_invariant_v2 : invariant store mount.
Proof.
  apply invariant_begin_v2; [reflexivity|].
  split; [constructor|]. split; [split; [reflexivity|discriminate]|].
  split; [left; split; reflexivity|constructor].
Qed.

Lemma reachable_invariant_v2 w : reachable store w -> invariant store w.
Proof.
  induction 1 as [|st w Hw IH He]; [apply mount_invariant_v2|].
  destruct st as [ev|i].
  - destruct (use_step_v2 ev w) as [->|[->|[(c & Hc & ->)| ->]]].
    + apply invariant_update_v2, IH.
    + apply invariant_begin_v2; [reflexivity|]. apply invariant_update_v2, IH.
    + apply invariant_begin_v2; [discriminate|].
      apply invariant_stack_v2; [exact IH|].
      apply Forall_app. split; [apply IH|].
      constructor; [|constructor].
      apply pageFromLog_cursor_v2; [apply IH|exact Hc].
    + apply (invariant_stack_v2 _
               (fetchPage_begin false
                  (last (removelast (cursorStack (state w)))) w)).
      * apply invariant_begin_v2; [discriminate|exact IH].
      * apply Forall_removelast_v2.
        apply (invariant_begin_v2 false
                 (last (removelast (cursorStack (state w)))) w);
          [discriminate|exact IH].
  - cbn [handle]. cbn [enabled] in He. apply bool_decide_eq_true in He.
    destruct (lookup_lt_is_Some_2 _ _ He) as [p Hp]. rewrite Hp.
    apply invariant_answer_v2; assumption.
Qed.

(** The sequential [fetchPage] is its first half followed at once by
    its second half. *)
Lemma fetchPage_split_v2 reset sa s l :
  Table2.fetchPage store reset sa {| Table2.ui := s; Table2.sent := l |}
  = {| Table2.ui :=
         fetchPage_end store
           {| p_reset := reset; p_startAfter := sa;
              p_query := Table2.pageQuery s sa |}
           (setErr None (setLoading true s));
       Table2.sent := l ++ [Table2.pageQuery s sa] |}.
Proof.
  rewrite fetchPage_unfold_v2. unfold fetchPage_end. cbn.
  destruct (store (Table2.pageQuery s sa)); destruct reset; reflexivity.
Qed.

Lemma use_refines_v2 ev w :
  waiting w = [] ->
  (waiting (handle store (Use ev) w) = []
   /\ settled (handle store (Use ev) w) = Table2.handle store ev (settled w))
  \/ exists p,
       waiting (handle store (Use ev) w) = [p]
       /\ {| Table2.ui := fetchPage_end store p (state (handle store (Use ev) w));
             Table2.sent := log (handle store (Use ev) w) |}
          = Table2.handle store ev (settled w).
Proof.
  destruct w as [s l wt]. cbn [waiting]. intros ->. unfold settled.
  destruct ev; cbn [handle Table2.handle update state log waiting
                      Table2.ui Table2.sent];
    try (match goal with
         | |- context [if depsChanged ?a ?b then _ else _] =>
             destruct (depsChanged a b)
         end;
         [ right; eexists; split; [reflexivity|];
           symmetry; apply fetchPage_split_v2
         | left; split; reflexivity ]).
  - unfold onPrev, Table2.onPrev. cbn [state log waiting Table2.ui Table2.sent].
    destruct (length (cursorStack s) =? 0)%nat.
    + left. split; reflexivity.
    + right. eexists. split; [reflexivity|].
      rewrite fetchPage_split_v2. unfold fetchPage_end. cbn.
      destruct (store _); reflexivity.
  - unfold onNext, Table2.onNext. cbn [state log waiting Table2.ui Table2.sent].
    destruct (nextCursor s) as [c|].
    + right. eexists. split; [reflexivity|].
      symmetry. apply fetchPage_split_v2.
    + left. split; reflexivity.
Qed.

(** Used in single flight, the component goes through the states of the
    sequential model. *)
Lemma singleFlight_refines_v2 w :
  singleFlight store w ->
  match waiting w with
  | [] => Table2.reachable store (settled w)
  | [p] => Table2.reachable store
             {| Table2.ui := fetchPage_end store p (state w); Table2.sent := log w |}
  | _ => False
  end.
Proof.
  induction 1 as [|ev w Hw IH Hn He|i w Hw IH He].
  - pose proof (Table2.reach_mount store) as R. unfold Table2.mount in R.
    rewrite fetchPage_split_v2 in R. exact R.
  - rewrite Hn in IH.
    destruct (use_refines_v2 ev w Hn) as [[Hw' E]|(p & Hw' & E)];
      rewrite Hw'; rewrite E; apply Table2.reach_event; assumption.
  - cbn [enabled] in He. apply bool_decide_eq_true in He.
    destruct (waiting w) as [|p [|p' wt]] eqn:Ew; cbn [length] in He;
      [lia| |contradiction].
    destruct i as [|i]; [|lia].
    cbn [handle]. rewrite Ew. cbn. exact IH.
Qed.

Lemma singleFlight_settled_v2 w :
  singleFlight store w -> waiting w = [] -> Table2.reachable store (settled w).
Proof.
  intros H Hw. pose proof (singleFlight_refines_v2 w H) as R.
  rewrite Hw in R. exact R.
Qed.

End Table2AsyncSteps.

(** ** Properties that hold with overlapping requests *)

Section InFlight.
Variable store : Store.

(** X4. With requests answered in any order: whenever no call of
    [fetchPage] is waiting, [loading] is false; and an error shown is
    always the message of a query that was sent and that the store
    rejects. *)
Theorem flags_sound_in_flight (w1 : TableAsync.World) (w2 : Table2Async.World) :
  TableAsync.reachable store w1 ->
  Table2Async.reachable store w2 ->
  TableAsync.flagsSound store w1 /\ Table2Async.flagsSound store w2.
Proof.
  intros H1 H2. split.
  - apply (reachable_invariant store w1 H1).
  - apply (reachable_invariant_v2 store w2 H2).
Qed.

(** X10. With requests answered in any order, the rows and the next
    cursor are the initial ones or, together, the page the store returns
    to one of the queries the component has sent. *)
Theorem rows_come_from_a_sent_query
    (w1 : TableAsync.World) (w2 : Table2Async.World) :
  TableAsync.reachable store w1 ->
  Table2Async.reachable store w2 ->
  TableAsync.pageFromLog store w1 /\ Table2Async.pageFromLog store w2.
Proof.
  intros H1 H2. split.
  - apply (reachable_invariant store w1 H1).
  - apply (reachable_invariant_v2 store w2 H2).
Qed.

(** X11. With requests answered in any order and whatever the store
    answers or throws, the next cursor and every cursor on the stack is
    the last document of a page of 50 documents that the store returns
    to a query the component has sent. *)
Theorem cursors_are_store_issued
    (w1 : TableAsync.World) (w2 : Table2Async.World) :
  TableAsync.reachable store w1 ->
  Table2Async.reachable store w2 ->
  TableAsync.cursorsReturned store w1 /\ Table2Async.cursorsReturned store w2.
Proof.
  intros H1 H2. split.
  - destruct (reachable_invariant store w1 H1) as (_ & _ & Hp & Hs).
    split; [|exact Hs]. intros c. apply pageFromLog_cursor, Hp.
  - destruct (reachable_invariant_v2 store w2 H2) as (_ & _ & Hp & Hs).
    split; [|exact Hs]. intros c. apply pageFromLog_cursor_v2, Hp.
Qed.

(** X19. Used in single flight (no control is used while a call of
    [fetchPage] waits), once the answer is in, [loading] is false and
    [err] tells the outcome of the most recent request: null when the
    store answered it, the error message when it threw. *)
Theorem single_flight_flags (w1 : TableAsync.World) (w2 : Table2Async.World) :
  TableAsync.singleFlight store w1 -> TableAsync.waiting w1 = [] ->
  Table2Async.singleFlight store w2 -> Table2Async.waiting w2 = [] ->
  TableView.flagsSettled store (TableAsync.settled w1)
  /\ Table2View.flagsSettled store (Table2Async.settled w2).
Proof.
  intros H1 E1 H2 E2. split.
  - apply reachable_flagsSettled, singleFlight_settled; assumption.
  - apply reachable_flagsSettled_v2, singleFlight_settled_v2; assumption.
Qed.

(** X20. Used in single flight with a store that answers every query,
    once the answer is in, the rows and the next cursor are the store's
    answer to the query of the current filter and sort state, started
    after the top of the cursor stack (from the beginning when the stack
    is empty). *)
Theorem single_flight_shows_current_page
    (w1 : TableAsync.World) (w2 : Table2Async.World) :
  (forall q, exists docs, store q = inr docs) ->
  TableAsync.singleFlight store w1 -> TableAsync.waiting w1 = [] ->
  Table2Async.singleFlight store w2 -> Table2Async.waiting w2 = [] ->
  TableView.showsCurrentPage store (TableAsync.state w1)
  /\ Table2View.showsCurrentPage store (Table2Async.state w2).
Proof.
  intros Hok H1 E1 H2 E2. split.
  - apply (reachable_showsCurrentPage store (TableAsync.settled w1) Hok).
    apply singleFlight_settled; assumption.
  - apply (reachable_showsCurrentPage_v2 store (Table2Async.settled w2) Hok).
    apply singleFlight_settled_v2; assumption.
Qed.

(** X18. In the second version too, from the first page, n uses of
    "next", each made while a next cursor is shown, followed by n uses
    of "previous", show the rows of the first page again. *)
Theorem previous_undoes_next_v2
    (w : Table2.World) (docs : list DocumentSnapshot) (n : nat) :
  store (Table2.pageQuery (Table2.ui w) None) = inr docs ->
  (forall k, (k < n)%nat ->
     Table2.nextCursor
       (Table2.ui (Nat.iter k (Table2.onNext store)
                     (Table2.fetchPage store true None w))) <> None) ->
  Table2.rows
    (Table2.ui (Nat.iter n (Table2.onPrev store)
                  (Nat.iter n (Table2.onNext store)
                     (Table2.fetchPage store true None w))))
  = Table2.rows (Table2.ui (Table2.fetchPage store true None w)).
Proof.
  intros Hq Hn. exact (next_previous_first_page_v2 store w docs n Hq Hn).
Qed.

End InFlight.

(** A filter button pressed while the first request waits, the second
    request answered before the first. *)
Lemma reachable_overlap :
  let store := MemStore.serve MemStore.sample in
  TableAsync.reachable store
    (TableAsync.handle store (TableAsync.Answer 0)
       (TableAsync.handle store (TableAsync.Answer 1)
          (TableAsync.handle store (TableAsync.Use Table.ClickYear)
             TableAsync.mount))).
Proof.
  intros store.
  repeat (apply TableAsync.reach_step; [|vm_compute; reflexivity]).
  apply TableAsync.reach_mount.
Defined.

Lemma reachable_overlap_v2 :
  let store := MemStore.serve MemStore.sample in
  Table2Async.reachable store
    (Table2Async.handle store (Table2Async.Answer 0)
       (Table2Async.handle store (Table2Async.Answer 1)
          (Table2Async.handle store (Table2Async.Use (Table2.ChangeYear "2009"))
             Table2Async.mount))).
Proof.
  intros store.
  repeat (apply Table2Async.reach_step; [|vm_compute; reflexivity]).
  apply Table2Async.reach_mount.
Defined.

Lemma singleFlight_page2 :
  let store := MemStore.serve MemStore.sample in
  TableAsync.singleFlight store
    (TableAsync.handle store (TableAsync.Answer 0)
       (TableAsync.handle store (TableAsync.Use Table.ClickSiguiente)
          (TableAsync.handle store (TableAsync.Answer 0) TableAsync.mount))).
Proof.
  intros store.
  apply TableAsync.single_answer; [|vm_compute; reflexivity].
  apply TableAsync.single_use; [|vm_compute; reflexivity|vm_compute; reflexivity].
  apply TableAsync.single_answer; [|vm_compute; reflexivity].
  apply TableAsync.single_mount.
Defined.

Lemma singleFlight_page2_v2 :
  let store := MemStore.serve MemStore.sample in
  Table2Async.singleFlight store
    (Table2Async.handle store (Table2Async.Answer 0)
       (Table2Async.handle store (Table2Async.Use Table2.ClickSiguiente)
          (Table2Async.handle store (Table2Async.Answer 0) Table2Async.mount))).
Proof.
  intros store.
  apply Table2Async.single_answer; [|vm_compute; reflexivity].
  apply Table2Async.single_use; [|vm_compute; reflexivity|vm_compute; reflexivity].
  apply Table2Async.single_answer; [|vm_compute; reflexivity].
  apply Table2Async.single_mount.
Defined.

Lemma flags_sound_in_flight_witness :
  let store := MemStore.serve MemStore.sample in
  TableAsync.flagsSound store
    (TableAsync.handle store (TableAsync.Answer 0)
       (TableAsync.handle store (TableAsync.Answer 1)
          (TableAsync.handle store (TableAsync.Use Table.ClickYear)
             TableAsync.mount)))
  /\ Table2Async.flagsSound store
       (Table2Async.handle store (Table2Async.Answer 0)
          (Table2Async.handle store (Table2Async.Answer 1)
             (Table2Async.handle store
                (Table2Async.Use (Table2.ChangeYear "2009"))
                Table2Async.mount))).
Proof.
  intros store. apply (flags_sound_in_flight store);
    [apply reachable_overlap|apply reachable_overlap_v2].
Defined.

Lemma rows_come_from_a_sent_query_witness :
  let store := MemStore.serve MemStore.sample in
  TableAsync.pageFromLog store
    (TableAsync.handle store (TableAsync.Answer 0)
       (TableAsync.handle store (TableAsync.Answer 1)
          (TableAsync.handle store (TableAsync.Use Table.ClickYear)
             TableAsync.mount)))
  /\ Table2Async.pageFromLog store
       (Table2Async.handle store (Table2Async.Answer 0)
          (Table2Async.handle store (Table2Async.Answer 1)
             (Table2Async.handle store
                (Table2Async.Use (Table2.ChangeYear "2009"))
                Table2Async.mount))).
Proof.
  intros store. apply (rows_come_from_a_sent_query store);
    [apply reachable_overlap|apply reachable_overlap_v2].
Defined.

Lemma cursors_are_store_issued_witness :
  let store := MemStore.serve MemStore.sample in
  TableAsync.cursorsReturned store
    (TableAsync.handle store (TableAsync.Answer 0)
       (TableAsync.handle store (TableAsync.Answer 1)
          (TableAsync.handle store (TableAsync.Use Table.ClickYear)
             TableAsync.mount)))
  /\ Table2Async.cursorsReturned store
       (Table2Async.handle store (Table2Async.Answer 0)
          (Table2Async.handle store (Table2Async.Answer 1)
             (Table2Async.handle store
                (Table2Async.Use (Table2.ChangeYear "2009"))
                Table2Async.mount))).
Proof.
  intros store. apply (cursors_are_store_issued store);
    [apply reachable_overlap|apply reachable_overlap_v2].
Defined.

Lemma single_flight_flags_witness :
  let store := MemStore.serve MemStore.sample in
  TableView.flagsSettled store
    (TableAsync.settled
       (TableAsync.handle store (TableAsync.Answer 0)
          (TableAsync.handle store (TableAsync.Use Table.ClickSiguiente)
             (TableAsync.handle store (TableAsync.Answer 0) TableAsync.mount))))
  /\ Table2View.flagsSettled store
       (Table2Async.settled
          (Table2Async.handle store (Table2Async.Answer 0)
             (Table2Async.handle store (Table2Async.Use Table2.ClickSiguiente)
                (Table2Async.handle store (Table2Async.Answer 0)
                   Table2Async.mount)))).
Proof.
  intros store. apply (single_flight_flags store);
    [apply singleFlight_page2|vm_compute; reflexivity
    |apply singleFlight_page2_v2|vm_compute; reflexivity].
Defined.

Lemma single_flight_shows_current_page_witness :
  let store := MemStore.serve MemStore.sample in
  TableView.showsCurrentPage store
    (TableAsync.state
       (TableAsync.handle store (TableAsync.Answer 0)
          (TableAsync.handle store (TableAsync.Use Table.ClickSiguiente)
             (TableAsync.handle store (TableAsync.Answer 0) TableAsync.mount))))
  /\ Table2View.showsCurrentPage store
       (Table2Async.state
          (Table2Async.handle store (Table2Async.Answer 0)
             (Table2Async.handle store (Table2Async.Use Table2.ClickSiguiente)
                (Table2Async.handle store (Table2Async.Answer 0)
                   Table2Async.mount)))).
Proof.
  intros store. apply (single_flight_shows_current_page store);
    [intros q; eexists; reflexivity
    |apply singleFlight_page2|vm_compute; reflexivity
    |apply singleFlight_page2_v2|vm_compute; reflexivity].
Defined.

Lemma previous_undoes_next_v2_witness :
  let store := MemStore.serve MemStore.sample in
  Table2.rows
    (Table2.ui (Nat.iter 2 (Table2.onPrev store)
                  (Nat.iter 2 (Table2.onNext store) (Table2.mount store))))
  = Table2.rows (Table2.ui (Table2.mount store)).
Proof.
  eapply (previous_undoes_next_v2 (MemStore.serve MemStore.sample)
            {| Table2.ui := Table2.initial; Table2.sent := [] |} _ 2).
  - reflexivity.
  - intros [|[|k]] Hk; [vm_compute; discriminate|vm_compute; discriminate|lia].
Defined.

(** With overlapping requests the last answer wins: after the run of
    [reachable_overlap] nothing waits, the query of the state is ordered
    by año, and the rows are those of the first query, ordered by
    sala_num. *)
Example overlap_shows_stale_rows :
  let store := MemStore.serve MemStore.sample in
  let w := TableAsync.handle store (TableAsync.Answer 0)
             (TableAsync.handle store (TableAsync.Answer 1)
                (TableAsync.handle store (TableAsync.Use Table.ClickYear)
                   TableAsync.mount)) in
  let firstId (rows : list FirestoreService.Row) :=
    (fun r : FirestoreService.Row => r !! "id") <$> head rows in
  TableAsync.waiting w = []
  /\ order_by_fields (Table.pageQuery (TableAsync.state w) None) = ["año"]
  /\ firstId (Table.rows (TableAsync.state w))
     = firstId (map FirestoreService.toRow
                  (MemStore.run MemStore.sample
                     (Table.pageQuery Table.initial None)))
  /\ firstId (Table.rows (TableAsync.state w)) = Some (Some (VString "doc20"))
  /\ firstId (map FirestoreService.toRow
                (MemStore.run MemStore.sample
                   (Table.pageQuery (TableAsync.state w) None)))
     = Some (Some (VString "doc110")).
Proof.
  vm_compute. repeat split.
Qed.
